(** * exile-gem-profit: classification, aggregation and reports

    A shallow embedding of [src/main.py].  The program reads the skill-gem
    price feed of a market API, classifies every gem by the quality marker in
    its name, folds the feed into one [Gem] object per gem name (held in the
    class-level registry [gems.Gem.dictionary]) and writes two sorted tables.

    Conventions of the embedding:
    - Python [str] is [string]; [sub in s] is [str_in], [s.replace(old, new)]
      is [str_replace].
    - JSON numbers are rationals ([Q]) and compared as such (a NaN price is
      not modelled); an attribute holding [None] is [None : option Q].
    - A Python [dict] used as a map is a [gmap string _]; the registry is
      threaded explicitly through every function that touches it.  The
      order in which a dict lists its entries is not modelled: it only
      decides the order of report rows with equal sort values, which pandas
      leaves open as well.
    - A function that can raise returns an [outcome]: the value together with
      the registry it leaves behind, or the exception and that registry. *)

From Stdlib Require Import QArith.
From stdpp Require Import base strings gmap list sorting infinite.

(** ** Strings *)

(** [sub in s] for two Python strings: [sub] occurs somewhere in [s]. *)
Fixpoint str_in (sub s : string) : bool :=
  if String.prefix sub s then true
  else match s with
       | EmptyString => false
       | String _ rest => str_in sub rest
       end.

(** [s.replace(old, new)] for a non-empty [old]: scan from the left, replace
    every occurrence found and go on after it (occurrences do not overlap).
    [skip] counts the characters of a matched occurrence still to pass. *)
Fixpoint str_replace_from (old new : string) (skip : nat) (s : string) : string :=
  match s with
  | EmptyString => EmptyString
  | String c rest =>
      match skip with
      | S k => str_replace_from old new k rest
      | O =>
          if String.prefix old s
          then new +:+ str_replace_from old new (String.length old - 1) rest
          else String c (str_replace_from old new 0 rest)
      end
  end.

Definition str_replace (old new s : string) : string :=
  str_replace_from old new 0 s.

(** ** Quality classification ([gem_quality_type]) *)

(** The dictionary literal of [gem_quality_type]; a Python dict iterates in
    insertion order, so the items are kept in the order they are written. *)
Definition quality_types : list (string * list string) :=
  [ ("Vaal", ["Vaal"]);
    ("Alternative", ["Anomalous"; "Divergent"; "Phantasmal"]);
    ("Awakened", ["Awakened"]) ].

(** The inner loop [for prefix in prefixes: if prefix in name: return ...]:
    [true] when the loop body returns. *)
Fixpoint any_prefix_in (prefixes : list string) (name : string) : bool :=
  match prefixes with
  | [] => false
  | prefix :: rest => if str_in prefix name then true else any_prefix_in rest name
  end.

(** The outer loop over [quality_types.items()]; [None] when it runs to its
    end without returning. *)
Fixpoint first_quality (items : list (string * list string)) (name : string)
  : option string :=
  match items with
  | [] => None
  | (quality, prefixes) :: rest =>
      if any_prefix_in prefixes name then Some quality
      else first_quality rest name
  end.

Definition gem_quality_type (name : string) : string :=
  match first_quality quality_types name with
  | Some quality => quality
  | None => "Basic"
  end.

(** ** Gem objects and the registry *)

Module gems.

(** Modelled from the spec: the class [gems.Gem] is imported by [main.py]
    and its file is not part of the sources.  The attribute names are those
    [create_gem_object] assigns; their order is the order of the eight
    column labels [save_data] gives to the frame built from these objects.
    A price is a number or absent, a listing count is an integer. *)
Record Gem : Type := Build_Gem {
  name : string;
  base_price : option Q;
  fail_price : option Q;
  success_price : option Q;
  listed_21_20 : Z;
  vaal_price : option Q;
  leveled_price : option Q;
  listed_leveled : Z
}.

(** Modelled from the spec: the constructor call [gems.Gem(gem_name)], whose
    definition is missing with the class.  The new object carries its name,
    every price is absent and both listing counts are 0. *)
Definition new (gem_name : string) : Gem :=
  {| name := gem_name;
     base_price := None; fail_price := None; success_price := None;
     listed_21_20 := 0%Z; vaal_price := None;
     leveled_price := None; listed_leveled := 0%Z |}.

(** Attribute assignments [obj.attr = value] on a [Gem]. *)
Definition set_base_price (v : Q) (obj : Gem) : Gem :=
  {| name := name obj;
     base_price := Some v; fail_price := fail_price obj;
     success_price := success_price obj; listed_21_20 := listed_21_20 obj;
     vaal_price := vaal_price obj;
     leveled_price := leveled_price obj; listed_leveled := listed_leveled obj |}.

Definition set_fail_price (v : Q) (obj : Gem) : Gem :=
  {| name := name obj;
     base_price := base_price obj; fail_price := Some v;
     success_price := success_price obj; listed_21_20 := listed_21_20 obj;
     vaal_price := vaal_price obj;
     leveled_price := leveled_price obj; listed_leveled := listed_leveled obj |}.

Definition set_success_price (v : Q) (obj : Gem) : Gem :=
  {| name := name obj;
     base_price := base_price obj; fail_price := fail_price obj;
     success_price := Some v; listed_21_20 := listed_21_20 obj;
     vaal_price := vaal_price obj;
     leveled_price := leveled_price obj; listed_leveled := listed_leveled obj |}.

Definition set_listed_21_20 (n : Z) (obj : Gem) : Gem :=
  {| name := name obj;
     base_price := base_price obj; fail_price := fail_price obj;
     success_price := success_price obj; listed_21_20 := n;
     vaal_price := vaal_price obj;
     leveled_price := leveled_price obj; listed_leveled := listed_leveled obj |}.

Definition set_vaal_price (v : Q) (obj : Gem) : Gem :=
  {| name := name obj;
     base_price := base_price obj; fail_price := fail_price obj;
     success_price := success_price obj; listed_21_20 := listed_21_20 obj;
     vaal_price := Some v;
     leveled_price := leveled_price obj; listed_leveled := listed_leveled obj |}.

Definition set_leveled_price (v : Q) (obj : Gem) : Gem :=
  {| name := name obj;
     base_price := base_price obj; fail_price := fail_price obj;
     success_price := success_price obj; listed_21_20 := listed_21_20 obj;
     vaal_price := vaal_price obj;
     leveled_price := Some v; listed_leveled := listed_leveled obj |}.

Definition set_listed_leveled (n : Z) (obj : Gem) : Gem :=
  {| name := name obj;
     base_price := base_price obj; fail_price := fail_price obj;
     success_price := success_price obj; listed_21_20 := listed_21_20 obj;
     vaal_price := vaal_price obj;
     leveled_price := leveled_price obj; listed_leveled := n |}.

End gems.

(** The class attribute [gems.Gem.dictionary]: one mapping for the whole
    process, from gem name to the [Gem] object registered under it. *)
Abbreviation Registry := (gmap string gems.Gem).

(** ** Exceptions and registry-passing computations *)

Inductive exception : Type :=
  | KeyError (key : string)
  | ValueError (message : string).

Inductive outcome (A : Type) : Type :=
  | Return (value : A) (dictionary : Registry)
  | Raise (e : exception) (dictionary : Registry).
Arguments Return {A} value dictionary.
Arguments Raise {A} e dictionary.

(** The registry a computation leaves behind, however it ends. *)
Definition final_registry {A} (o : outcome A) : Registry :=
  match o with
  | Return _ dictionary => dictionary
  | Raise _ dictionary => dictionary
  end.

Definition M (A : Type) : Type := Registry → outcome A.

Definition ret {A} (value : A) : M A := λ dictionary, Return value dictionary.

Definition bind {A B} (m : M A) (k : A → M B) : M B :=
  λ dictionary,
    match m dictionary with
    | Return value dictionary' => k value dictionary'
    | Raise e dictionary' => Raise e dictionary'
    end.

#[global] Instance M_ret : MRet M := @ret.
#[global] Instance M_bind : MBind M := λ A B k m, bind m k.

(** [d[key]] on a JSON object of the feed: [KeyError] when the key is
    missing.  The object's slot for [key] is [field]. *)
Definition getitem {A} (field : option A) (key : string) : M A :=
  λ dictionary,
    match field with
    | Some value => Return value dictionary
    | None => Raise (KeyError key) dictionary
    end.

(** [try: body  except KeyError: handler] *)
Definition try_except_KeyError {A} (body handler : M A) : M A :=
  λ dictionary,
    match body dictionary with
    | Raise (KeyError _) dictionary' => handler dictionary'
    | o => o
    end.

(** [for x in l: body(x)] *)
Fixpoint for_each {A} (body : A → M unit) (l : list A) : M unit :=
  match l with
  | [] => ret tt
  | x :: rest => body x;; for_each body rest
  end.

(** ** The feed *)

Module api.

(** One element of [data["lines"]]: a JSON object.  Each of the four keys
    the program reads may be present or missing. *)
Record RawRecord : Type := Build_RawRecord {
  name : option string;
  variant : option string;
  chaosValue : option Q;
  listingCount : option Z
}.

(** The parsed response [data]. *)
Record Response : Type := Build_Response {
  lines : option (list RawRecord)
}.

End api.

(** ** Aggregation ([create_gem_object], [go_over_elements]) *)

(** The [if]/[elif] cascade of [create_gem_object] on the object [obj]. *)
Definition update_prices (variant : string) (price : Q) (quality : string)
    (listed : Z) (obj : gems.Gem) : gems.Gem :=
  (* base price *)
  let is_basic_1_20 := String.eqb variant "1/20" && String.eqb quality "Basic" in
  let is_alternative_1 := String.eqb variant "1" && String.eqb quality "Alternative" in
  let is_awakened_1 := String.eqb variant "1" && String.eqb quality "Awakened" in
  (* leveled price *)
  let is_leveled_20_20 := String.eqb variant "20/20" in
  (* fail price *)
  let is_not_vaal_20_20c := String.eqb variant "20/20c" && negb (String.eqb quality "Vaal") in
  let is_awakened_5_20c := String.eqb variant "5/20c" && String.eqb quality "Awakened" in
  (* semi fail price *)
  let is_vaal_20_20c := String.eqb variant "20/20c" && String.eqb quality "Vaal" in
  (* success price *)
  let is_not_vaal_21_20c := String.eqb variant "21/20c" && negb (String.eqb quality "Vaal") in
  let is_awakened_6_20c := String.eqb variant "6/20c" && String.eqb quality "Awakened" in
  if is_basic_1_20 || is_alternative_1 || is_awakened_1 then
    gems.set_base_price price obj
  else if is_leveled_20_20 then
    gems.set_listed_leveled listed (gems.set_leveled_price price obj)
  else if is_not_vaal_20_20c || is_awakened_5_20c then
    gems.set_fail_price price obj
  else if is_vaal_20_20c then
    gems.set_vaal_price price obj
  else if is_not_vaal_21_20c || is_awakened_6_20c then
    gems.set_listed_21_20 listed (gems.set_success_price price obj)
  else obj.

Definition create_gem_object (gem_name variant : string) (price : Q)
    (quality : string) (listed : Z) : M unit :=
  λ dictionary,
    (* if gem_name not in dictionary: dictionary[gem_name] = Gem(gem_name) *)
    let dictionary :=
      match dictionary !! gem_name with
      | None => <[gem_name := gems.new gem_name]> dictionary
      | Some _ => dictionary
      end in
    (* if gem_name in dictionary: obj = dictionary[gem_name]; obj.x = ... *)
    match dictionary !! gem_name with
    | Some obj =>
        Return tt (<[gem_name := update_prices variant price quality listed obj]> dictionary)
    | None => Return tt dictionary
    end.

(** The body of the loop of [go_over_elements] for one element [gem]. *)
Definition process_gem (gem : api.RawRecord) : M unit :=
  gem_name ← getitem (api.name gem) "name";
  variant ← getitem (api.variant gem) "variant";
  price ← getitem (api.chaosValue gem) "chaosValue";
  (* fixes issue if a gem is missing a listingCount *)
  listed ← try_except_KeyError
             (getitem (api.listingCount gem) "listingCount") (ret 0%Z);
  let quality := gem_quality_type gem_name in
  let gem_name :=
    if String.eqb quality "Vaal" then str_replace "Vaal " EmptyString gem_name
    else gem_name in
  create_gem_object gem_name variant price quality listed.

(** [return gems.Gem.dictionary]: the value returned is the registry itself. *)
Definition the_dictionary : M Registry :=
  λ dictionary, Return dictionary dictionary.

Definition go_over_elements (data : api.Response) : M Registry :=
  lines ← getitem (api.lines data) "lines";
  for_each process_gem lines;;
  the_dictionary.

(** ** Reports ([save_data]) *)

(** A pandas [DataFrame] as far as [save_data] uses one: the column labels and
    the rows, top to bottom. *)
Record DataFrame (Row : Type) : Type := Build_DataFrame {
  columns : list string;
  rows : list Row
}.
Arguments Build_DataFrame {Row} columns rows.
Arguments columns {Row} d.
Arguments rows {Row} d.

(** The attributes of a [Gem] in declaration order: the columns of a frame
    built from [Gem] objects. *)
Definition gem_attributes : list string :=
  [ "name"; "base_price"; "fail_price"; "success_price"; "listed_21_20";
    "vaal_price"; "leveled_price"; "listed_leveled" ].

(** [pd.DataFrame.from_dict(dict, orient="index")]: one row per entry of the
    dict and one column per attribute of the objects in it.  pandas looks at
    the values only when [len(dict) > 0]; from an empty dict it builds the
    empty frame, which has no rows and no columns. *)
Definition from_dict (dict : Registry) : DataFrame gems.Gem :=
  {| columns := if decide (0 < size dict) then gem_attributes else [];
     rows := (map_to_list dict).*2 |}.

(** A frame operation gives a frame or raises. *)
Inductive result (A : Type) : Type :=
  | Ok (value : A)
  | Error (e : exception).
Arguments Ok {A} value.
Arguments Error {A} e.

#[global] Instance result_bind : MBind result :=
  λ A B k r, match r with Ok value => k value | Error e => Error e end.

(** [df.columns = labels]: pandas raises [ValueError] (length mismatch) unless
    there are as many labels as the frame has columns. *)
Definition set_columns {Row} (labels : list string) (df : DataFrame Row)
  : result (DataFrame Row) :=
  if decide (length labels = length (columns df))
  then Ok {| columns := labels; rows := rows df |}
  else Error (ValueError "Length mismatch").

(** [df[labels]]: the frame restricted to the listed columns, [KeyError] when
    a label is not a column.  [project] restricts one row. *)
Definition select_columns {Row Row'} (labels : list string)
    (project : Row → Row') (df : DataFrame Row) : result (DataFrame Row') :=
  match filter (λ label, label ∉ columns df) labels with
  | [] => Ok {| columns := labels; rows := project <$> rows df |}
  | label :: _ => Error (KeyError label)
  end.

(** Rows of the frame written to [gems_to_corrupt.csv]; a field per column
    "Gem Name", "Buy price", "Corrupted 20/20", "Success 21/20",
    "Listed 21/20", "Vaal price". *)
Record CorruptRow : Type := Build_CorruptRow {
  corrupt_gem_name : string;
  corrupt_buy_price : option Q;
  corrupted_20_20 : option Q;
  success_21_20 : option Q;
  corrupt_listed_21_20 : Z;
  corrupt_vaal_price : option Q
}.

(** Rows of the frame written to [gems_to_level.csv]; a field per column
    "Gem Name", "Buy price", "Leveled 20/20", "Listed L20/20". *)
Record LevelRow : Type := Build_LevelRow {
  level_gem_name : string;
  level_buy_price : option Q;
  leveled_20_20 : option Q;
  listed_L20_20 : Z
}.

(** The columns are matched to the attributes by position. *)
Definition corrupt_row (g : gems.Gem) : CorruptRow :=
  {| corrupt_gem_name := gems.name g;
     corrupt_buy_price := gems.base_price g;
     corrupted_20_20 := gems.fail_price g;
     success_21_20 := gems.success_price g;
     corrupt_listed_21_20 := gems.listed_21_20 g;
     corrupt_vaal_price := gems.vaal_price g |}.

Definition level_row (g : gems.Gem) : LevelRow :=
  {| level_gem_name := gems.name g;
     level_buy_price := gems.base_price g;
     leveled_20_20 := gems.leveled_price g;
     listed_L20_20 := gems.listed_leveled g |}.

#[global] Instance Qle_dec (x y : Q) : Decision (x <= y)%Q :=
  decide (Qnum x * QDen y ≤ Qnum y * QDen x)%Z.

(** Order of two rows that both have a value in the sort column, for
    [ascending=False]: the larger value first. *)
Definition value_desc {Row} (key : Row → option Q) : relation Row :=
  λ a b,
    match key a, key b with
    | Some x, Some y => (y <= x)%Q
    | _, _ => True
    end.

#[global] Instance value_desc_dec {Row} (key : Row → option Q) (a b : Row)
  : Decision (value_desc key a b).
Proof. unfold value_desc. destruct (key a), (key b); apply _. Defined.

(** [df.sort_values(label, ascending=False)] with the default
    [na_position="last"]: the rows without a value in the sort column (a
    [None] price is a missing value) are set apart and put after the others,
    which are sorted by decreasing value.  [key] reads the sort column of a
    row.  pandas leaves the order of rows with equal values open; no theorem
    below depends on it. *)
Definition sort_values {Row} (key : Row → option Q) (df : DataFrame Row)
  : DataFrame Row :=
  {| columns := columns df;
     rows := merge_sort (value_desc key) (filter (λ r, is_Some (key r)) (rows df))
             ++ filter (λ r, ¬ is_Some (key r)) (rows df) |}.

(** [save_data]: the two frames handed to [to_csv], first the one for
    [output/gems_to_corrupt.csv], then the one for
    [output/gems_to_level.csv]; or the exception that ends the call. *)
Definition save_data (dict : Registry)
  : result (DataFrame CorruptRow * DataFrame LevelRow) :=
  let df := from_dict dict in
  (* Set the column names *)
  df ← set_columns
         [ "Gem Name"; "Buy price"; "Corrupted 20/20"; "Success 21/20";
           "Listed 21/20"; "Vaal price"; "Leveled 20/20"; "Listed L20/20" ] df;
  df1 ← select_columns
          [ "Gem Name"; "Buy price"; "Corrupted 20/20"; "Success 21/20";
            "Listed 21/20"; "Vaal price" ] corrupt_row df;
  df2 ← select_columns
          [ "Gem Name"; "Buy price"; "Leveled 20/20"; "Listed L20/20" ]
          level_row df;
  let df1 := sort_values success_21_20 df1 in
  let df2 := sort_values leveled_20_20 df2 in
  Ok (df1, df2).

(** ** The vocabulary of the specification *)

(** [sub] occurs in [s] as a substring, at any position. *)
Definition occurs_in (sub s : string) : Prop :=
  ∃ before after : string, s = before +:+ sub +:+ after.

Inductive QualityCategory : Type := Vaal | Alternative | Awakened | Basic.

(** The string [gem_quality_type] returns for a category. *)
Definition quality_label (category : QualityCategory) : string :=
  match category with
  | Vaal => "Vaal"
  | Alternative => "Alternative"
  | Awakened => "Awakened"
  | Basic => "Basic"
  end.

(** The classifier as the specification words it: the markers are tried in
    the order Vaal, Alternative (any of three), Awakened, and the first one
    found in the name decides; Basic when none is found. *)
Definition classify (name : string) : QualityCategory :=
  if str_in "Vaal" name then Vaal
  else if str_in "Anomalous" name || str_in "Divergent" name
          || str_in "Phantasmal" name then Alternative
  else if str_in "Awakened" name then Awakened
  else Basic.

(** The field groups a rule can select: a price, with its listing count for
    the leveled and the success price. *)
Inductive PriceField : Type :=
  | basePrice | leveledPrice | failPrice | vaalPrice | successPrice.

#[global] Instance PriceField_eq_dec : EqDecision PriceField.
Proof. solve_decision. Defined.

Inductive CategoryPattern : Type :=
  | Exactly (category : QualityCategory)
  | AnyCategory
  | NotVaal.

(** The rule table of the specification, row by row. *)
Definition rule_table : list (string * CategoryPattern * PriceField) :=
  [ ("1/20", Exactly Basic, basePrice);
    ("1", Exactly Alternative, basePrice);
    ("1", Exactly Awakened, basePrice);
    ("20/20", AnyCategory, leveledPrice);
    ("20/20c", NotVaal, failPrice);
    ("5/20c", Exactly Awakened, failPrice);
    ("20/20c", Exactly Vaal, vaalPrice);
    ("21/20c", NotVaal, successPrice);
    ("6/20c", Exactly Awakened, successPrice) ].

Definition category_eqb (a b : QualityCategory) : bool :=
  match a, b with
  | Vaal, Vaal | Alternative, Alternative | Awakened, Awakened | Basic, Basic => true
  | _, _ => false
  end.

Definition pattern_matches (pattern : CategoryPattern) (category : QualityCategory)
  : bool :=
  match pattern with
  | Exactly c => category_eqb c category
  | AnyCategory => true
  | NotVaal => negb (category_eqb Vaal category)
  end.

(** First-match-wins lookup in a list of rules. *)
Fixpoint first_rule (rules : list (string * CategoryPattern * PriceField))
    (variant : string) (category : QualityCategory) : option PriceField :=
  match rules with
  | [] => None
  | (v, pattern, field) :: rest =>
      if String.eqb variant v && pattern_matches pattern category
      then Some field
      else first_rule rest variant category
  end.

Definition selected_field (variant : string) (category : QualityCategory)
  : option PriceField :=
  first_rule rule_table variant category.

(** What a rule's field group holds in a [Gem]: the price and, where the
    group has one, the listing count. *)
Definition field_contents (field : PriceField) (g : gems.Gem) : option Q * option Z :=
  match field with
  | basePrice => (gems.base_price g, None)
  | leveledPrice => (gems.leveled_price g, Some (gems.listed_leveled g))
  | failPrice => (gems.fail_price g, None)
  | vaalPrice => (gems.vaal_price g, None)
  | successPrice => (gems.success_price g, Some (gems.listed_21_20 g))
  end.

(** What a record with price [price] and listing count [listed] writes into a
    field group. *)
Definition written (field : PriceField) (price : Q) (listed : Z) : option Q * option Z :=
  match field with
  | leveledPrice | successPrice => (Some price, Some listed)
  | _ => (Some price, None)
  end.

(** [g'] is [g] with the group [field] set from [price] and [listed] and
    nothing else changed; with no group selected, [g'] is [g]. *)
Definition updated_by (selected : option PriceField) (price : Q) (listed : Z)
    (g g' : gems.Gem) : Prop :=
  gems.name g' = gems.name g ∧
  ∀ field : PriceField,
    field_contents field g' =
      if decide (selected = Some field) then written field price listed
      else field_contents field g.

(** A feed record with the three keys the specification requires. *)
Definition well_formed (gem : api.RawRecord) : Prop :=
  is_Some (api.name gem) ∧ is_Some (api.variant gem) ∧ is_Some (api.chaosValue gem).

(** The listing count of a record: 0 when the key is missing. *)
Definition listing_count (gem : api.RawRecord) : Z :=
  match api.listingCount gem with Some n => n | None => 0%Z end.

(** The key under which [go_over_elements] aggregates a gem called [name]. *)
Definition aggregation_key (name : string) : string :=
  if String.eqb (gem_quality_type name) "Vaal"
  then str_replace "Vaal " EmptyString name
  else name.

(** The name with its first occurrence of [old] removed, as the specification
    words the normalisation. *)
Fixpoint remove_first (old s : string) : string :=
  if String.prefix old s then String.substring (String.length old) (String.length s) s
  else match s with
       | EmptyString => EmptyString
       | String c rest => String c (remove_first old rest)
       end.

(** The registry after the records [gems] of a feed, starting from
    [dictionary]. *)
Definition aggregate (gems : list api.RawRecord) (dictionary : Registry) : Registry :=
  final_registry (for_each process_gem gems dictionary).

(** The key a record is aggregated under; none for a record that lacks one
    of the three required keys (such a record raises before anything is
    registered). *)
Definition record_key (gem : api.RawRecord) : option string :=
  match api.name gem, api.variant gem, api.chaosValue gem with
  | Some name, Some _, Some _ => Some (aggregation_key name)
  | _, _, _ => None
  end.

(** The keys of all records of a feed. *)
Definition feed_keys (gems : list api.RawRecord) : gset string :=
  list_to_set (omap record_key gems).

(** The GemRecord and the field group a record writes to; none for a record
    the rule table does not cover. *)
Definition record_target (gem : api.RawRecord) : option (string * PriceField) :=
  match api.name gem, api.variant gem, api.chaosValue gem with
  | Some name, Some variant, Some _ =>
      (λ field, (aggregation_key name, field)) <$> selected_field variant (classify name)
  | _, _, _ => None
  end.

(** What a record writes into the field group [field]. *)
Definition record_written (gem : api.RawRecord) (field : PriceField)
  : option (option Q * option Z) :=
  (λ price, written field price (listing_count gem)) <$> api.chaosValue gem.

(** A list of rows is sorted by decreasing [key] with the rows that have no
    value last: it splits into the rows with a value, each at least as large
    as all rows after it, followed by the rows without one. *)
Definition sorted_descending_missing_last {Row} (key : Row → option Q)
    (l : list Row) : Prop :=
  ∃ valued missing : list Row,
    l = valued ++ missing ∧
    Forall (λ r, is_Some (key r)) valued ∧
    Forall (λ r, key r = None) missing ∧
    StronglySorted
      (λ a b, ∀ x y, key a = Some x → key b = Some y → (y <= x)%Q) valued.

(** ** The entry point ([main]) *)

(** A call that does not touch the registry, made where the registry is
    threaded: its value or its exception, the registry as it was. *)
Definition call {A} (r : result A) : M A :=
  λ dictionary,
    match r with
    | Ok value => Return value dictionary
    | Error e => Raise e dictionary
    end.

(** [main], with the parsed response of [requests.get(url).json()] as its
    argument: the feed is aggregated into the registry and the mapping
    returned is handed to [save_data].  The value is the pair of frames
    [save_data] writes; an exception of either call ends [main]. *)
Definition main (response : api.Response)
  : M (DataFrame CorruptRow * DataFrame LevelRow) :=
  gems_dict ← go_over_elements response;
  call (save_data gems_dict).

(** ** Vocabulary for whole feeds *)

(** The first key that the loop body of [go_over_elements] subscripts and
    the record lacks; none for a record with its three required keys. *)
Definition first_missing_key (gem : api.RawRecord) : option string :=
  match api.name gem, api.variant gem, api.chaosValue gem with
  | None, _, _ => Some "name"
  | Some _, None, _ => Some "variant"
  | Some _, Some _, None => Some "chaosValue"
  | Some _, Some _, Some _ => None
  end.

(** What the last record of a feed that writes to the field group [field] of
    the GemRecord [key] writes there; none when no record does. *)
Fixpoint last_written (feed : list api.RawRecord) (key : string)
    (field : PriceField) : option (option Q * option Z) :=
  match feed with
  | [] => None
  | gem :: rest =>
      match last_written rest key field with
      | Some contents => Some contents
      | None =>
          if decide (record_target gem = Some (key, field))
          then record_written gem field
          else None
      end
  end.

(** Every object of the registry is registered under its own name. *)
Definition name_is_key (dictionary : Registry) : Prop :=
  map_Forall (λ key obj, gems.name obj = key) dictionary.

(** The price of a field group. *)
Definition price_of (field : PriceField) (g : gems.Gem) : option Q :=
  (field_contents field g).1.

(** * Properties *)

(** ** Strings *)

Section string_facts.

Implicit Types sub s before after : string.

Lemma app_String c s after : String c s +:+ after = String c (s +:+ after).
Proof. done. Qed.

Lemma prefix_iff sub s :
  String.prefix sub s = true ↔ ∃ after, s = sub +:+ after.
Proof.
  revert s. induction sub as [|a sub IH]; intros s; simpl.
  - split; [intros _; by exists s | by destruct s].
  - destruct s as [|b s]; simpl.
    + split; [done | by intros [after ?]].
    + destruct (Ascii.ascii_dec a b) as [->|Hab].
      * rewrite IH. split; intros [after H]; exists after;
          rewrite app_String in *; congruence.
      * split; [done | intros [after H]; rewrite app_String in H; congruence].
Qed.

Lemma str_in_unfold sub s :
  str_in sub s =
    if String.prefix sub s then true
    else match s with
         | EmptyString => false
         | String _ rest => str_in sub rest
         end.
Proof. by destruct s. Qed.

Lemma str_in_occurs sub s : str_in sub s = true ↔ occurs_in sub s.
Proof.
  split.
  - induction s as [|c s IH]; rewrite str_in_unfold;
      destruct (String.prefix sub _) eqn:Hp; try done.
    + apply prefix_iff in Hp as [after ->]. by exists EmptyString, after.
    + apply prefix_iff in Hp as [after Hp]. by exists EmptyString, after.
    + intros [before [after ->]]%IH. by exists (String c before), after.
  - intros (before & after & ->).
    induction before as [|c before IH]; rewrite str_in_unfold.
    + change (EmptyString +:+ sub +:+ after) with (sub +:+ after).
      by rewrite (proj2 (prefix_iff sub (sub +:+ after))) by eauto.
    + rewrite app_String, IH. by destruct (String.prefix _ _).
Qed.

Lemma str_replace_from_unfold old new c s :
  str_replace_from old new 0 (String c s) =
    if String.prefix old (String c s)
    then new +:+ str_replace_from old new (String.length old - 1) s
    else String c (str_replace_from old new 0 s).
Proof. done. Qed.

Lemma str_in_absent sub s : str_in sub s = false ↔ ¬ occurs_in sub s.
Proof. rewrite <-str_in_occurs. by destruct (str_in sub s). Qed.

End string_facts.

(** ** Classification *)

(** Turn the boolean marker tests in the context into [occurs_in] facts. *)
Ltac marker_facts :=
  repeat match goal with
         | H : str_in _ _ = true |- _ => apply str_in_occurs in H
         | H : str_in _ _ = false |- _ => apply str_in_absent in H
         end.

Lemma gem_quality_type_classify name :
  gem_quality_type name = quality_label (classify name).
Proof.
  unfold gem_quality_type, classify, quality_types; simpl.
  destruct (str_in "Vaal" name); [done|].
  destruct (str_in "Anomalous" name); [done|].
  destruct (str_in "Divergent" name); [done|].
  destruct (str_in "Phantasmal" name); [done|].
  by destruct (str_in "Awakened" name).
Qed.

(** Every name falls in exactly one of four cases, tried in this order. *)
Lemma gem_quality_type_cases (name : string) :
  (occurs_in "Vaal" name ∧ gem_quality_type name = "Vaal") ∨
  (¬ occurs_in "Vaal" name ∧
   (occurs_in "Anomalous" name ∨ occurs_in "Divergent" name
    ∨ occurs_in "Phantasmal" name) ∧
   gem_quality_type name = "Alternative") ∨
  (¬ occurs_in "Vaal" name ∧ ¬ occurs_in "Anomalous" name ∧
   ¬ occurs_in "Divergent" name ∧ ¬ occurs_in "Phantasmal" name ∧
   occurs_in "Awakened" name ∧ gem_quality_type name = "Awakened") ∨
  (¬ occurs_in "Vaal" name ∧ ¬ occurs_in "Anomalous" name ∧
   ¬ occurs_in "Divergent" name ∧ ¬ occurs_in "Phantasmal" name ∧
   ¬ occurs_in "Awakened" name ∧ gem_quality_type name = "Basic").
Proof.
  rewrite gem_quality_type_classify. unfold classify.
  destruct (str_in "Vaal" name) eqn:HV, (str_in "Anomalous" name) eqn:HA,
    (str_in "Divergent" name) eqn:HD, (str_in "Phantasmal" name) eqn:HP,
    (str_in "Awakened" name) eqn:HW; simpl; marker_facts; tauto.
Qed.

(** C3. [gem_quality_type] tries the markers in the fixed order Vaal, then
    Alternative (any of "Anomalous", "Divergent", "Phantasmal"), then
    Awakened; a marker matches when it occurs anywhere in the name; the
    result is the category of the first marker that matches and Basic when
    none does.  The function is total: every name falls in exactly one of
    the four cases. *)
Theorem C3_classify_first_marker_wins (name : string) :
  gem_quality_type name = quality_label (classify name) ∧
  ( (occurs_in "Vaal" name ∧ gem_quality_type name = "Vaal") ∨
    (¬ occurs_in "Vaal" name ∧
     (occurs_in "Anomalous" name ∨ occurs_in "Divergent" name
      ∨ occurs_in "Phantasmal" name) ∧
     gem_quality_type name = "Alternative") ∨
    (¬ occurs_in "Vaal" name ∧ ¬ occurs_in "Anomalous" name ∧
     ¬ occurs_in "Divergent" name ∧ ¬ occurs_in "Phantasmal" name ∧
     occurs_in "Awakened" name ∧ gem_quality_type name = "Awakened") ∨
    (¬ occurs_in "Vaal" name ∧ ¬ occurs_in "Anomalous" name ∧
     ¬ occurs_in "Divergent" name ∧ ¬ occurs_in "Phantasmal" name ∧
     ¬ occurs_in "Awakened" name ∧ gem_quality_type name = "Basic") ).
Proof.
  split; [apply gem_quality_type_classify | apply gem_quality_type_cases].
Qed.

(** The examples of the specification. *)
Example classify_examples :
  gem_quality_type "Anomalous Reduced Mana" = "Alternative" ∧
  gem_quality_type "Awakened Fire Penetration" = "Awakened" ∧
  gem_quality_type "Vaal Haste" = "Vaal" ∧
  gem_quality_type "Fire Penetration" = "Basic".
Proof. by vm_compute. Qed.

(** C4, as stated, fails: a name with "Awakened" and without "Vaal" is
    classified Alternative, not Awakened, when it also has "Anomalous". *)
Lemma C4_counterexample :
  occurs_in "Awakened" "Anomalous Awakened Spell Echo" ∧
  ¬ occurs_in "Vaal" "Anomalous Awakened Spell Echo" ∧
  gem_quality_type "Anomalous Awakened Spell Echo" = "Alternative" ∧
  gem_quality_type "Anomalous Awakened Spell Echo" ≠ "Awakened".
Proof.
  split_and!.
  - by apply str_in_occurs.
  - by apply str_in_absent.
  - done.
  - by vm_compute.
Qed.

(** C4, amended.  A name that contains "Awakened" is classified Awakened
    when it contains none of the markers tried earlier ("Vaal", "Anomalous",
    "Divergent", "Phantasmal"); "Vaal" takes priority when present, and
    without "Vaal" so does each Alternative marker. *)
Theorem C4_awakened_after_vaal_and_alternative (name : string) :
  occurs_in "Awakened" name →
  (occurs_in "Vaal" name → gem_quality_type name = "Vaal") ∧
  (¬ occurs_in "Vaal" name →
   occurs_in "Anomalous" name ∨ occurs_in "Divergent" name
   ∨ occurs_in "Phantasmal" name →
   gem_quality_type name = "Alternative") ∧
  (¬ occurs_in "Vaal" name → ¬ occurs_in "Anomalous" name →
   ¬ occurs_in "Divergent" name → ¬ occurs_in "Phantasmal" name →
   gem_quality_type name = "Awakened").
Proof.
  intros HW.
  pose proof (gem_quality_type_cases name) as H.
  split_and!; intros; destruct_or!; destruct_and!; try done; tauto.
Qed.

(** The statement applies to "Awakened Fire Penetration". *)
Lemma C4_awakened_after_vaal_and_alternative_witness :
  occurs_in "Awakened" "Awakened Fire Penetration" ∧
  gem_quality_type "Awakened Fire Penetration" = "Awakened".
Proof.
  assert (occurs_in "Awakened" "Awakened Fire Penetration") as HW
    by (by apply str_in_occurs).
  split; [exact HW|].
  apply (C4_awakened_after_vaal_and_alternative "Awakened Fire Penetration" HW);
    by apply str_in_absent.
Defined.

(** ** One record *)

(** The cascade of [create_gem_object] takes the branch the rule table
    selects, for each of the four categories. *)
Lemma update_prices_selected variant price category listed obj :
  updated_by (selected_field variant category) price listed obj
    (update_prices variant price (quality_label category) listed obj).
Proof.
  destruct (decide (variant = "1/20")) as [->|H1];
    [by destruct category; (split; [|intros []])|].
  destruct (decide (variant = "1")) as [->|H2];
    [by destruct category; (split; [|intros []])|].
  destruct (decide (variant = "20/20")) as [->|H3];
    [by destruct category; (split; [|intros []])|].
  destruct (decide (variant = "20/20c")) as [->|H4];
    [by destruct category; (split; [|intros []])|].
  destruct (decide (variant = "5/20c")) as [->|H5];
    [by destruct category; (split; [|intros []])|].
  destruct (decide (variant = "21/20c")) as [->|H6];
    [by destruct category; (split; [|intros []])|].
  destruct (decide (variant = "6/20c")) as [->|H7];
    [by destruct category; (split; [|intros []])|].
  apply String.eqb_neq in H1, H2, H3, H4, H5, H6, H7.
  unfold update_prices, selected_field, rule_table, first_rule.
  rewrite H1, H2, H3, H4, H5, H6, H7. simpl.
  by split; [|intros []].
Qed.

(** With no rule selected the cascade falls through and the object is
    unchanged. *)
Lemma update_prices_dropped variant price name listed obj :
  selected_field variant (classify name) = None →
  update_prices variant price (gem_quality_type name) listed obj = obj.
Proof.
  intros Hnone. rewrite gem_quality_type_classify.
  destruct (update_prices_selected variant price (classify name) listed obj)
    as [Hname Hfields].
  rewrite Hnone in Hfields.
  pose proof (Hfields basePrice). pose proof (Hfields leveledPrice).
  pose proof (Hfields failPrice). pose proof (Hfields vaalPrice).
  pose proof (Hfields successPrice).
  destruct (update_prices _ _ _ _ obj), obj. simpl in *. congruence.
Qed.

(** A record with its three required keys never raises; it replaces the
    entry under its key by the updated object, which is created first when
    the key is new. *)
Lemma process_gem_well_formed name variant price listingCount dictionary :
  process_gem
    (api.Build_RawRecord (Some name) (Some variant) (Some price) listingCount)
    dictionary =
  Return tt
    (<[aggregation_key name :=
         update_prices variant price (gem_quality_type name)
           (default 0%Z listingCount)
           (default (gems.new (aggregation_key name))
                    (dictionary !! aggregation_key name))]> dictionary).
Proof.
  unfold process_gem, aggregation_key, mbind, M_bind, bind, getitem,
    try_except_KeyError, ret, create_gem_object; simpl.
  set (key := if String.eqb _ _ then _ else _).
  destruct listingCount as [n|]; simpl;
    (destruct (dictionary !! key) as [obj|] eqn:Hkey; simpl;
     [ by rewrite Hkey
     | by rewrite lookup_insert_eq, insert_insert_eq ]).
Qed.

(** C1. For every raw record (name, variant, chaosValue, optional
    listingCount) the aggregator replaces the GemRecord under the record's
    key by one that differs from it exactly as the rule table says for the
    record's (variant, quality category) pair, the table being read
    first-match-wins in its listed order: the selected field group is set
    from the record's price (and listing count, for the leveled and success
    groups), every other field keeps its value, and with no rule selected
    nothing changes.  The GemRecord is the one already registered under the
    key, or a new one when the key is not registered yet. *)
Theorem C1_fields_set_per_rule_table (name variant : string) (price : Q)
    (listingCount : option Z) (dictionary : Registry) :
  let gem := api.Build_RawRecord (Some name) (Some variant) (Some price) listingCount in
  let key := aggregation_key name in
  let before := default (gems.new key) (dictionary !! key) in
  ∃ after : gems.Gem,
    process_gem gem dictionary = Return tt (<[key := after]> dictionary) ∧
    updated_by (selected_field variant (classify name)) price (listing_count gem)
      before after.
Proof.
  intros gem key before. eexists. split.
  - apply process_gem_well_formed.
  - rewrite gem_quality_type_classify. apply update_prices_selected.
Qed.

(** The rule table, row by row and read in order, selects as the claim lists
    (shown here for the rows whose order matters and for a pair outside the
    table). *)
Example rule_table_examples :
  selected_field "1/20" Basic = Some basePrice ∧
  selected_field "1" Alternative = Some basePrice ∧
  selected_field "1" Awakened = Some basePrice ∧
  selected_field "1" Basic = None ∧
  selected_field "20/20" Vaal = Some leveledPrice ∧
  selected_field "20/20c" Basic = Some failPrice ∧
  selected_field "5/20c" Awakened = Some failPrice ∧
  selected_field "20/20c" Vaal = Some vaalPrice ∧
  selected_field "21/20c" Alternative = Some successPrice ∧
  selected_field "21/20c" Vaal = None ∧
  selected_field "6/20c" Awakened = Some successPrice ∧
  selected_field "6/20c" Basic = None.
Proof. by vm_compute. Qed.

(** ** The aggregation key *)

(** C2, as stated, fails: for a name classified Vaal in which "Vaal " occurs
    twice the aggregator's key has both occurrences removed, not only the
    first. *)
Lemma C2_counterexample :
  let gem := api.Build_RawRecord (Some "Vaal Vaal Haste") (Some "20/20c")
               (Some 3%Q) None in
  gem_quality_type "Vaal Vaal Haste" = "Vaal" ∧
  remove_first "Vaal " "Vaal Vaal Haste" = "Vaal Haste" ∧
  aggregate [gem] ∅ !! "Vaal Haste" = None ∧
  aggregate [gem] ∅ !! "Haste" = Some (gems.set_vaal_price 3%Q (gems.new "Haste")).
Proof. by vm_compute. Qed.

(** C2, amended.  For every record classified Vaal the aggregator's key is
    the record's name with every occurrence of "Vaal " removed, the
    occurrences being found by one scan from the left (the three equations
    say how the scan goes: an occurrence at the front is dropped and the scan
    goes on behind it, any other character is kept).  So a Vaal record and
    its plain counterpart meet in one GemRecord: the records
    ("Vaal Haste", "20/20c") and ("Haste", "1/20"), aggregated from the empty
    registry, give exactly one GemRecord, keyed "Haste", with both the vaal
    price and the base price set. *)
Theorem C2_vaal_key_drops_every_occurrence (name variant : string) (price : Q)
    (listingCount : option Z) (dictionary : Registry) :
  gem_quality_type name = "Vaal" →
  (∃ after : gems.Gem,
     process_gem
       (api.Build_RawRecord (Some name) (Some variant) (Some price) listingCount)
       dictionary =
     Return tt (<[str_replace "Vaal " EmptyString name := after]> dictionary)) ∧
  (∀ s, str_replace "Vaal " EmptyString ("Vaal " +:+ s) = str_replace "Vaal " EmptyString s) ∧
  (∀ c s, String.prefix "Vaal " (String c s) = false →
          str_replace "Vaal " EmptyString (String c s) = String c (str_replace "Vaal " EmptyString s)) ∧
  str_replace "Vaal " EmptyString EmptyString = EmptyString ∧
  ∀ (p1 p2 : Q) (l1 l2 : option Z),
    aggregate
      [ api.Build_RawRecord (Some "Vaal Haste") (Some "20/20c") (Some p1) l1;
        api.Build_RawRecord (Some "Haste") (Some "1/20") (Some p2) l2 ] ∅ =
    {[ "Haste" :=
         {| gems.name := "Haste";
            gems.base_price := Some p2; gems.fail_price := None;
            gems.success_price := None; gems.listed_21_20 := 0%Z;
            gems.vaal_price := Some p1;
            gems.leveled_price := None; gems.listed_leveled := 0%Z |} ]}.
Proof.
  intros Hvaal. split_and!.
  - eexists. rewrite process_gem_well_formed. unfold aggregation_key.
    by rewrite Hvaal.
  - intros s. unfold str_replace. rewrite !app_String. simpl.
    by destruct s.
  - intros c s Hp. unfold str_replace.
    by rewrite str_replace_from_unfold, Hp.
  - done.
  - intros p1 p2 l1 l2. unfold aggregate, for_each, mbind, M_bind, bind.
    rewrite process_gem_well_formed. simpl.
    rewrite process_gem_well_formed. simpl.
    by vm_compute.
Qed.

(** The statement applies to the record ("Vaal Haste", "20/20c"). *)
Lemma C2_vaal_key_drops_every_occurrence_witness :
  gem_quality_type "Vaal Haste" = "Vaal" ∧
  ∃ after : gems.Gem,
    process_gem
      (api.Build_RawRecord (Some "Vaal Haste") (Some "20/20c") (Some 3%Q) None) ∅ =
    Return tt (<[str_replace "Vaal " EmptyString "Vaal Haste" := after]> ∅).
Proof.
  split; [reflexivity|].
  apply (C2_vaal_key_drops_every_occurrence "Vaal Haste" "20/20c" 3%Q None ∅).
  reflexivity.
Defined.

(** ** Records outside the rule table, records without a listing count *)

(** C5. A raw record whose (variant, quality category) pair is in no row of
    the rule table is dropped without an error: the GemRecord under its key
    comes out as it went in (as it was registered, or as just created), a
    registry that already has the key is left as it is, and the loop goes on
    with the remaining records. *)
Theorem C5_unmatched_record_is_dropped (name variant : string) (price : Q)
    (listingCount : option Z) (dictionary : Registry)
    (remaining : list api.RawRecord) :
  selected_field variant (classify name) = None →
  let gem := api.Build_RawRecord (Some name) (Some variant) (Some price) listingCount in
  let key := aggregation_key name in
  let before := default (gems.new key) (dictionary !! key) in
  process_gem gem dictionary = Return tt (<[key := before]> dictionary) ∧
  (∀ obj, dictionary !! key = Some obj →
          process_gem gem dictionary = Return tt dictionary) ∧
  for_each process_gem (gem :: remaining) dictionary =
    for_each process_gem remaining (<[key := before]> dictionary).
Proof.
  intros Hnone gem key before.
  assert (process_gem gem dictionary = Return tt (<[key := before]> dictionary))
    as Hstep.
  { unfold gem. rewrite process_gem_well_formed.
    by rewrite update_prices_dropped. }
  split_and!.
  - done.
  - intros obj Hobj. rewrite Hstep. unfold before. rewrite Hobj. simpl.
    by rewrite insert_id.
  - simpl. unfold mbind, M_bind, bind. by rewrite Hstep.
Qed.

(** The statement applies to the record ("Haste", "3/20"), which no rule
    covers. *)
Lemma C5_unmatched_record_is_dropped_witness :
  selected_field "3/20" (classify "Haste") = None ∧
  process_gem
    (api.Build_RawRecord (Some "Haste") (Some "3/20") (Some 2%Q) (Some 7%Z)) ∅ =
  Return tt (<["Haste" := gems.new "Haste"]> ∅).
Proof.
  split; [reflexivity|].
  exact (proj1 (C5_unmatched_record_is_dropped "Haste" "3/20" 2%Q (Some 7%Z) ∅ []
                  eq_refl)).
Defined.

(** C6. A raw record without [listingCount] (and with the three keys every
    raw record has) is processed as the same record with [listingCount] 0
    and does not raise: the [KeyError] of the missing key is caught and the
    count is 0. *)
Theorem C6_missing_listing_count_is_zero (name variant : string) (price : Q)
    (dictionary : Registry) :
  try_except_KeyError (getitem (None : option Z) "listingCount") (ret 0%Z)
    dictionary = Return 0%Z dictionary ∧
  process_gem
    (api.Build_RawRecord (Some name) (Some variant) (Some price) None) dictionary =
  process_gem
    (api.Build_RawRecord (Some name) (Some variant) (Some price) (Some 0%Z))
    dictionary ∧
  ∃ dictionary' : Registry,
    process_gem
      (api.Build_RawRecord (Some name) (Some variant) (Some price) None) dictionary =
    Return tt dictionary'.
Proof.
  split_and!.
  - done.
  - by rewrite !process_gem_well_formed.
  - eexists. apply process_gem_well_formed.
Qed.

(** ** Sequences of records *)

Lemma well_formed_inv gem :
  well_formed gem →
  ∃ name variant price listingCount,
    gem = api.Build_RawRecord (Some name) (Some variant) (Some price) listingCount.
Proof.
  destruct gem as [n v p l]. intros ([name ?] & [variant ?] & [price ?]).
  simpl in *; subst. by exists name, variant, price, l.
Qed.

(** A record that lacks a required key raises and leaves the registry as it
    found it. *)
Lemma process_gem_malformed gem dictionary :
  record_key gem = None →
  ∃ key, process_gem gem dictionary = Raise (KeyError key) dictionary.
Proof.
  destruct gem as [[n|] [v|] [p|] l]; intros Hkey; try done;
    unfold process_gem, mbind, M_bind, bind, getitem; simpl; eauto.
Qed.

Lemma aggregate_nil dictionary : aggregate [] dictionary = dictionary.
Proof. done. Qed.

Lemma aggregate_cons gem gems dictionary :
  aggregate (gem :: gems) dictionary =
    match process_gem gem dictionary with
    | Return _ dictionary' => aggregate gems dictionary'
    | Raise _ dictionary' => dictionary'
    end.
Proof.
  unfold aggregate. simpl. unfold mbind, M_bind, bind.
  by destruct (process_gem gem dictionary).
Qed.

Lemma aggregate_app gems1 gems2 dictionary :
  Forall well_formed gems1 →
  aggregate (gems1 ++ gems2) dictionary = aggregate gems2 (aggregate gems1 dictionary).
Proof.
  intros Hwf. revert dictionary.
  induction Hwf as [|gem gems1 Hgem _ IH]; intros dictionary; [done|].
  apply well_formed_inv in Hgem as (n & v & p & l & ->).
  simpl. rewrite !aggregate_cons, process_gem_well_formed. apply IH.
Qed.

(** A feed of well-formed records is processed to its end, and
    [go_over_elements] returns the registry it leaves behind. *)
Lemma go_over_elements_well_formed gems dictionary :
  Forall well_formed gems →
  go_over_elements (api.Build_Response (Some gems)) dictionary =
    Return (aggregate gems dictionary) (aggregate gems dictionary).
Proof.
  intros Hwf.
  assert (for_each process_gem gems dictionary =
          Return tt (aggregate gems dictionary)) as Hloop.
  { revert dictionary.
    induction Hwf as [|gem gems Hgem _ IH]; intros dictionary; [done|].
    apply well_formed_inv in Hgem as (n & v & p & l & ->).
    rewrite aggregate_cons. simpl. unfold mbind, M_bind, bind.
    rewrite process_gem_well_formed. apply IH. }
  unfold go_over_elements, mbind, M_bind, bind, getitem, the_dictionary. simpl.
  by rewrite Hloop.
Qed.

Lemma feed_keys_nil : feed_keys [] = ∅.
Proof. done. Qed.

Lemma feed_keys_cons gem gems :
  feed_keys (gem :: gems) =
    match record_key gem with
    | Some key => {[ key ]} ∪ feed_keys gems
    | None => feed_keys gems
    end.
Proof. unfold feed_keys. simpl. by destruct (record_key gem). Qed.

(** Entries under keys the feed does not name are not touched. *)
Lemma aggregate_lookup_other gems dictionary key :
  key ∉ feed_keys gems → aggregate gems dictionary !! key = dictionary !! key.
Proof.
  revert dictionary. induction gems as [|gem gems IH]; intros dictionary Hkey;
    [done|].
  rewrite aggregate_cons.
  destruct (record_key gem) as [k|] eqn:Hk.
  - rewrite feed_keys_cons, Hk, not_elem_of_union, not_elem_of_singleton in Hkey.
    destruct Hkey as [??].
    destruct gem as [[n|] [v|] [p|] l]; try done.
    rewrite process_gem_well_formed, IH by done.
    injection Hk as <-. by rewrite lookup_insert_ne.
  - destruct (process_gem_malformed gem dictionary Hk) as [? ->]. done.
Qed.

(** The keys after a feed of well-formed records: those before and those of
    the feed. *)
Lemma dom_aggregate gems dictionary :
  Forall well_formed gems →
  dom (aggregate gems dictionary) = dom dictionary ∪ feed_keys gems.
Proof.
  intros Hwf. revert dictionary.
  induction Hwf as [|gem gems Hgem _ IH]; intros dictionary.
  - rewrite feed_keys_nil, aggregate_nil. by rewrite (right_id_L ∅ (∪)).
  - apply well_formed_inv in Hgem as (n & v & p & l & ->).
    rewrite aggregate_cons, process_gem_well_formed, IH, dom_insert_L.
    rewrite feed_keys_cons. simpl.
    by rewrite (comm_L _ {[ _ ]} (dom dictionary)), (assoc_L _).
Qed.

Lemma record_key_feed_keys gem gems key :
  gem ∈ gems → record_key gem = Some key → key ∈ feed_keys gems.
Proof.
  intros Hin Hkey. unfold feed_keys. apply elem_of_list_to_set.
  apply list_elem_of_omap. eauto.
Qed.

(** What one well-formed record does to the field group [field] of the
    GemRecord under [key]. *)
Lemma process_gem_contents name variant price listingCount
    (dictionary : Registry) key field :
  field_contents field <$>
    (<[aggregation_key name :=
         update_prices variant price (gem_quality_type name)
           (default 0%Z listingCount)
           (default (gems.new (aggregation_key name))
                    (dictionary !! aggregation_key name))]> dictionary) !! key =
  if decide (aggregation_key name = key) then
    Some (if decide (selected_field variant (classify name) = Some field)
          then written field price (default 0%Z listingCount)
          else default (field_contents field (gems.new key))
                       (field_contents field <$> dictionary !! key))
  else field_contents field <$> dictionary !! key.
Proof.
  case_decide as Hk.
  - subst key. rewrite lookup_insert_eq. simpl. f_equal.
    rewrite gem_quality_type_classify.
    destruct (update_prices_selected variant price (classify name)
                (default 0%Z listingCount)
                (default (gems.new (aggregation_key name))
                         (dictionary !! aggregation_key name))) as [_ ->].
    case_decide; [done|]. by destruct (dictionary !! aggregation_key name).
  - by rewrite lookup_insert_ne.
Qed.

(** The contents of a field group after a feed depend on the registry before
    it only through the contents of that group. *)
Lemma aggregate_contents_agree gems key field (d1 d2 : Registry) :
  Forall well_formed gems →
  field_contents field <$> d1 !! key = field_contents field <$> d2 !! key →
  field_contents field <$> aggregate gems d1 !! key =
    field_contents field <$> aggregate gems d2 !! key.
Proof.
  intros Hwf. revert d1 d2.
  induction Hwf as [|gem gems Hgem _ IH]; intros d1 d2 Hagree; [done|].
  apply well_formed_inv in Hgem as (n & v & p & l & ->).
  rewrite !aggregate_cons, !process_gem_well_formed. apply IH.
  rewrite !process_gem_contents. by rewrite Hagree.
Qed.

(** Records that write elsewhere leave a registered field group as it is. *)
Lemma aggregate_contents_untouched gems key field (dictionary : Registry) :
  Forall well_formed gems →
  Forall (λ gem, record_target gem ≠ Some (key, field)) gems →
  is_Some (dictionary !! key) →
  field_contents field <$> aggregate gems dictionary !! key =
    field_contents field <$> dictionary !! key.
Proof.
  intros Hwf. revert dictionary.
  induction Hwf as [|gem gems Hgem _ IH]; intros dictionary Hother Hsome; [done|].
  apply Forall_cons in Hother as [Hgem' Hother].
  apply well_formed_inv in Hgem as (n & v & p & l & ->).
  rewrite aggregate_cons, process_gem_well_formed.
  rewrite IH; [|done|].
  - rewrite process_gem_contents. case_decide as Hk; [|done].
    destruct Hsome as [obj Hobj]. rewrite Hobj. simpl.
    case_decide as Hsel; [|done].
    exfalso. apply Hgem'. unfold record_target. simpl. by rewrite Hsel, Hk.
  - destruct (decide (aggregation_key n = key)) as [<-|].
    + rewrite lookup_insert_eq. eauto.
    + by rewrite lookup_insert_ne.
Qed.

(** Records that write to other GemRecords, or are dropped, leave a
    registered GemRecord as it is. *)
Lemma aggregate_keeps_untargeted feed key obj (dictionary : Registry) :
  dictionary !! key = Some obj →
  Forall well_formed feed →
  (∀ gem field, gem ∈ feed → record_target gem ≠ Some (key, field)) →
  aggregate feed dictionary !! key = Some obj.
Proof.
  intros Hobj Hwf. revert dictionary Hobj.
  induction Hwf as [|gem feed Hgem Hwf IH]; intros dictionary Hobj Hdropped;
    [done|].
  pose proof (Hdropped gem) as Hhead.
  apply well_formed_inv in Hgem as (n & v & p & l & ->).
  rewrite aggregate_cons, process_gem_well_formed.
  apply IH; [|intros; apply Hdropped; by right].
  destruct (decide (aggregation_key n = key)) as [Hk|Hk];
    [|by rewrite lookup_insert_ne].
  rewrite Hk, Hobj, lookup_insert_eq. simpl. f_equal.
  apply update_prices_dropped.
  destruct (selected_field v (classify n)) as [field|] eqn:Hsel; [|done].
  exfalso. apply (Hhead field); [left|].
  unfold record_target. simpl. by rewrite Hsel, Hk.
Qed.

(** C7. Field assignment is last-write-wins.  When two records of a feed
    write to the same field group of the same GemRecord, the contents of
    that group after aggregation are the same as after aggregating the feed
    without the earlier of the two; and when no record after the later one
    writes there, the group holds what the later record wrote. *)
Theorem C7_last_write_wins (before between after : list api.RawRecord)
    (earlier later : api.RawRecord) (key : string) (field : PriceField)
    (dictionary : Registry) :
  Forall well_formed (before ++ earlier :: between ++ later :: after) →
  record_target earlier = Some (key, field) →
  record_target later = Some (key, field) →
  field_contents field <$>
    aggregate (before ++ earlier :: between ++ later :: after) dictionary !! key =
  field_contents field <$>
    aggregate (before ++ between ++ later :: after) dictionary !! key ∧
  (Forall (λ gem, record_target gem ≠ Some (key, field)) after →
   field_contents field <$>
     aggregate (before ++ earlier :: between ++ later :: after) dictionary !! key =
   record_written later field).
Proof.
  intros Hwf Hearlier Hlater.
  apply Forall_app in Hwf as [Hbefore Hwf].
  apply Forall_cons in Hwf as [Hwf_earlier Hwf].
  apply Forall_app in Hwf as [Hbetween Hwf].
  apply Forall_cons in Hwf as [Hwf_later Hafter].
  apply well_formed_inv in Hwf_later as (n & v & p & l & ->).
  assert (aggregation_key n = key ∧ selected_field v (classify n) = Some field)
    as [Hk Hsel].
  { unfold record_target in Hlater. simpl in Hlater.
    destruct (selected_field v (classify n)); naive_solver. }
  rewrite !aggregate_app by done.
  rewrite (aggregate_cons earlier).
  apply well_formed_inv in Hwf_earlier as (n' & v' & p' & l' & ->).
  rewrite process_gem_well_formed.
  rewrite !aggregate_app by done.
  rewrite !(aggregate_cons (api.Build_RawRecord _ _ _ _)).
  rewrite !process_gem_well_formed.
  split.
  - apply aggregate_contents_agree; [done|].
    rewrite !process_gem_contents.
    by rewrite !decide_True by done.
  - intros Hother.
    rewrite aggregate_contents_untouched; [|done|done|].
    + rewrite process_gem_contents.
      rewrite !decide_True by done.
      unfold record_written, listing_count. simpl. by destruct l.
    + rewrite <-Hk, lookup_insert_eq. eauto.
Qed.

(** The statement applies to a feed with two base prices for "Haste". *)
Lemma C7_last_write_wins_witness :
  let earlier := api.Build_RawRecord (Some "Haste") (Some "1/20") (Some 5%Q) None in
  let middle := api.Build_RawRecord (Some "Haste") (Some "20/20") (Some 20%Q) (Some 3%Z) in
  let later := api.Build_RawRecord (Some "Haste") (Some "1/20") (Some 6%Q) None in
  Forall well_formed ([] ++ earlier :: [middle] ++ later :: []) ∧
  record_target earlier = Some ("Haste", basePrice) ∧
  record_target later = Some ("Haste", basePrice) ∧
  field_contents basePrice <$>
    aggregate ([] ++ earlier :: [middle] ++ later :: []) ∅ !! "Haste" =
  field_contents basePrice <$>
    aggregate ([] ++ [middle] ++ later :: []) ∅ !! "Haste".
Proof.
  intros earlier middle later.
  assert (Forall well_formed ([] ++ earlier :: [middle] ++ later :: [])) as Hwf.
  { repeat constructor; simpl; eauto. }
  split_and!; [exact Hwf | reflexivity | reflexivity |].
  exact (proj1 (C7_last_write_wins [] [middle] [] earlier later "Haste" basePrice ∅
                  Hwf eq_refl eq_refl)).
Defined.

(** ** The registry outlives a call *)

(** C9, as stated, fails in its last part: two runs on the same feed that
    start from different registries need not return different mappings.
    Running a feed a second time, on the registry its first run left,
    returns the same mapping as the first run, which started from the empty
    registry. *)
Lemma C9_counterexample :
  let feed := [api.Build_RawRecord (Some "Haste") (Some "1/20") (Some 5%Q) None] in
  ∃ s1 s2 r : Registry,
    s1 ≠ s2 ∧
    go_over_elements (api.Build_Response (Some feed)) s1 = Return r r ∧
    go_over_elements (api.Build_Response (Some feed)) s2 = Return r r.
Proof.
  intros feed.
  exists ∅, (aggregate feed ∅), (aggregate feed ∅). split_and!.
  - intros Heq.
    assert ((∅ : Registry) !! "Haste" = aggregate feed ∅ !! "Haste") as Hlookup
      by by rewrite <-Heq.
    by vm_compute in Hlookup.
  - by vm_compute.
  - by vm_compute.
Qed.

(** C9, amended.  The registry is state of the process and not a function of
    the feed.  [go_over_elements] returns the registry itself (the value
    returned is the registry left behind).  For any two feeds [d1] and [d2]
    of well-formed records, the mapping returned for [d2] after [d1] still
    has every key the mapping returned for [d1] had, and holds unchanged
    every entry that [d2] does not name.  Two runs on the same feed can
    return different mappings: they do for any two prior registries of which
    one has a key that the other and the feed lack, and for every feed there
    are two such prior registries. *)
Theorem C9_registry_is_process_state (d1 d2 : list api.RawRecord)
    (dictionary : Registry) :
  Forall well_formed d1 →
  Forall well_formed d2 →
  (∃ m1 m2 : Registry,
     go_over_elements (api.Build_Response (Some d1)) dictionary = Return m1 m1 ∧
     go_over_elements (api.Build_Response (Some d2)) m1 = Return m2 m2 ∧
     dom m1 ⊆ dom m2 ∧
     ∀ key, key ∉ feed_keys d2 → m2 !! key = m1 !! key) ∧
  (∀ (s1 s2 : Registry) key,
     key ∈ dom s1 → key ∉ dom s2 → key ∉ feed_keys d2 →
     ∃ r1 r2 : Registry,
       go_over_elements (api.Build_Response (Some d2)) s1 = Return r1 r1 ∧
       go_over_elements (api.Build_Response (Some d2)) s2 = Return r2 r2 ∧
       r1 ≠ r2) ∧
  (∃ s1 s2 r1 r2 : Registry,
     go_over_elements (api.Build_Response (Some d2)) s1 = Return r1 r1 ∧
     go_over_elements (api.Build_Response (Some d2)) s2 = Return r2 r2 ∧
     r1 ≠ r2).
Proof.
  intros Hwf1 Hwf2.
  assert (∀ (s1 s2 : Registry) key,
            key ∈ dom s1 → key ∉ dom s2 → key ∉ feed_keys d2 →
            aggregate d2 s1 ≠ aggregate d2 s2) as Hdiffer.
  { intros s1 s2 key H1 H2 Hfeed Heq.
    assert (aggregate d2 s1 !! key = aggregate d2 s2 !! key) as Hlookup
      by by rewrite Heq.
    rewrite !aggregate_lookup_other in Hlookup by done.
    apply elem_of_dom in H1 as [obj Hobj]. apply not_elem_of_dom in H2.
    congruence. }
  split_and!.
  - exists (aggregate d1 dictionary), (aggregate d2 (aggregate d1 dictionary)).
    split_and!.
    + by apply go_over_elements_well_formed.
    + by apply go_over_elements_well_formed.
    + rewrite (dom_aggregate d2) by done. set_solver.
    + intros key Hkey. by apply aggregate_lookup_other.
  - intros s1 s2 key H1 H2 Hfeed.
    exists (aggregate d2 s1), (aggregate d2 s2).
    rewrite !go_over_elements_well_formed by done. eauto.
  - set (key := fresh (feed_keys d2)).
    exists {[ key := gems.new key ]}, ∅,
      (aggregate d2 {[ key := gems.new key ]}), (aggregate d2 ∅).
    rewrite !go_over_elements_well_formed by done.
    split_and!; [done..|].
    apply (Hdiffer _ _ key).
    + rewrite dom_singleton_L. set_solver.
    + set_solver.
    + apply is_fresh.
Qed.

(** The statement applies to a feed for "Haste" followed by one for
    "Clarity". *)
Lemma C9_registry_is_process_state_witness :
  let d1 := [api.Build_RawRecord (Some "Haste") (Some "1/20") (Some 5%Q) None] in
  let d2 := [api.Build_RawRecord (Some "Clarity") (Some "20/20") (Some 9%Q) (Some 2%Z)] in
  Forall well_formed d1 ∧ Forall well_formed d2 ∧
  ∃ m1 m2 : Registry,
    go_over_elements (api.Build_Response (Some d1)) ∅ = Return m1 m1 ∧
    go_over_elements (api.Build_Response (Some d2)) m1 = Return m2 m2 ∧
    dom m1 ⊆ dom m2 ∧
    ∀ key, key ∉ feed_keys d2 → m2 !! key = m1 !! key.
Proof.
  intros d1 d2.
  assert (Forall well_formed d1) as Hwf1 by (repeat constructor; simpl; eauto).
  assert (Forall well_formed d2) as Hwf2 by (repeat constructor; simpl; eauto).
  split_and!; [exact Hwf1 | exact Hwf2 |].
  exact (proj1 (C9_registry_is_process_state d1 d2 ∅ Hwf1 Hwf2)).
Defined.

(** ** Every record registers its name *)

(** C10, as stated, fails: the GemRecord of a dropped record need not have
    all its price fields absent.  Here the second record is dropped (no rule
    for ("3/20", Basic)), and the GemRecord under its name holds the base
    price the first record set. *)
Lemma C10_counterexample :
  let feed :=
    [ api.Build_RawRecord (Some "Haste") (Some "1/20") (Some 5%Q) None;
      api.Build_RawRecord (Some "Haste") (Some "3/20") (Some 2%Q) None ] in
  Forall well_formed feed ∧
  selected_field "3/20" (classify "Haste") = None ∧
  aggregation_key "Haste" = "Haste" ∧
  gems.base_price <$> aggregate feed ∅ !! "Haste" = Some (Some 5%Q).
Proof.
  intros feed. split_and!; [|by vm_compute..].
  repeat constructor; simpl; eauto.
Qed.

(** C10, amended.  After aggregating a feed of well-formed records the
    mapping has a key for the normalized name of every record, whether a
    rule matched the record or not, because the get-or-create step comes
    before the rules.  A GemRecord has all its price fields absent (it is as
    the constructor made it) when its key was not registered before the feed
    and no record of the feed writes to it, that is, when every record under
    that name was dropped. *)
Theorem C10_every_record_registers_its_name (feed : list api.RawRecord)
    (dictionary : Registry) :
  Forall well_formed feed →
  (∀ gem, gem ∈ feed →
     ∃ key, record_key gem = Some key ∧ key ∈ dom (aggregate feed dictionary)) ∧
  (∀ key,
     key ∈ feed_keys feed →
     key ∉ dom dictionary →
     (∀ gem field, gem ∈ feed → record_target gem ≠ Some (key, field)) →
     aggregate feed dictionary !! key = Some (gems.new key) ∧
     gems.base_price (gems.new key) = None ∧
     gems.leveled_price (gems.new key) = None ∧
     gems.fail_price (gems.new key) = None ∧
     gems.vaal_price (gems.new key) = None ∧
     gems.success_price (gems.new key) = None).
Proof.
  intros Hwf. split.
  - intros gem Hin.
    pose proof (proj1 (Forall_forall _ _) Hwf gem Hin) as Hgem.
    apply well_formed_inv in Hgem as (n & v & p & l & ->).
    exists (aggregation_key n). split; [done|].
    rewrite dom_aggregate by done.
    apply elem_of_union_r. by eapply record_key_feed_keys.
  - intros key Hkey Hnew Hdropped. split; [|done].
    apply not_elem_of_dom in Hnew.
    revert dictionary Hnew Hkey Hdropped.
    induction Hwf as [|gem feed Hgem Hwf IH]; intros dictionary Hnew Hkey Hdropped.
    { by rewrite feed_keys_nil in Hkey. }
    pose proof (Hdropped gem) as Hhead.
    apply well_formed_inv in Hgem as (n & v & p & l & ->).
    rewrite aggregate_cons, process_gem_well_formed.
    destruct (decide (aggregation_key n = key)) as [Hk|Hk].
    + apply aggregate_keeps_untargeted;
        [|done|intros; apply Hdropped; by right].
      rewrite Hk, Hnew, lookup_insert_eq. simpl. f_equal.
      apply update_prices_dropped.
      destruct (selected_field v (classify n)) as [field|] eqn:Hsel; [|done].
      exfalso. apply (Hhead field); [left|].
      unfold record_target. simpl. by rewrite Hsel, Hk.
    + apply IH.
      * by rewrite lookup_insert_ne.
      * rewrite feed_keys_cons in Hkey. simpl in Hkey.
        apply elem_of_union in Hkey as [Hkey%elem_of_singleton|Hkey]; done.
      * intros; apply Hdropped; by right.
Qed.

(** The statement applies to a feed whose only record is dropped. *)
Lemma C10_every_record_registers_its_name_witness :
  let feed := [api.Build_RawRecord (Some "Haste") (Some "3/20") (Some 2%Q) None] in
  Forall well_formed feed ∧
  ∀ gem, gem ∈ feed →
    ∃ key, record_key gem = Some key ∧ key ∈ dom (aggregate feed ∅).
Proof.
  intros feed.
  assert (Forall well_formed feed) as Hwf by (repeat constructor; simpl; eauto).
  split; [exact Hwf|].
  exact (proj1 (C10_every_record_registers_its_name feed ∅ Hwf)).
Defined.

(** ** Reports *)

Section sort_values_facts.

Context {Row : Type} (key : Row → option Q).

#[local] Instance value_desc_total : Total (value_desc key).
Proof.
  intros a b. unfold value_desc. destruct (key a) as [x|], (key b) as [y|]; auto.
  destruct (Qlt_le_dec x y) as [Hlt|Hle]; [right; by apply Qlt_le_weak | by left].
Qed.

(** Among rows that all have a value, a list sorted step by step is sorted
    throughout. *)
Lemma Sorted_value_desc_strongly (l : list Row) :
  Forall (λ r, is_Some (key r)) l →
  Sorted (value_desc key) l →
  StronglySorted
    (λ a b, ∀ x y, key a = Some x → key b = Some y → (y <= x)%Q) l.
Proof.
  intros Hval Hsorted.
  induction Hsorted as [|a l Hsorted IH Hhd]; [constructor|].
  apply Forall_cons in Hval as [[x Hx] Hval].
  specialize (IH Hval). constructor; [done|].
  destruct Hhd as [|b l Hab]; [constructor|].
  apply Forall_cons in Hval as [[y Hy] Hval].
  apply StronglySorted_inv in IH as [_ Hb].
  unfold value_desc in Hab. rewrite Hx, Hy in Hab.
  constructor.
  - intros x' y' ??. by simplify_eq.
  - eapply Forall_impl; [exact Hb|]. simpl. intros c Hbc x' z ? Hz.
    simplify_eq. eapply Qle_trans; [by apply (Hbc y z)|done].
Qed.

Lemma sort_values_rows (df : DataFrame Row) :
  rows (sort_values key df) ≡ₚ rows df.
Proof.
  simpl. rewrite merge_sort_Permutation. apply filter_app_complement.
Qed.

Lemma sort_values_sorted (df : DataFrame Row) :
  sorted_descending_missing_last key (rows (sort_values key df)).
Proof.
  eexists _, _. split; [reflexivity|]. split_and!.
  - rewrite merge_sort_Permutation. apply Forall_forall.
    by intros r [? _]%list_elem_of_filter.
  - apply Forall_forall. intros r [Hr _]%list_elem_of_filter.
    destruct (key r); [|done]. destruct Hr. eauto.
  - apply Sorted_value_desc_strongly.
    + rewrite merge_sort_Permutation. apply Forall_forall.
      by intros r [? _]%list_elem_of_filter.
    + apply Sorted_merge_sort, _.
Qed.

End sort_values_facts.

(** What [save_data] writes for a registry that is not empty: every
    GemRecord gives one row in each report, no row is left out or added, the
    first report is sorted by decreasing success price and the second by
    decreasing leveled price, and the rows without the price come last. *)
Lemma save_data_nonempty (dict : Registry) :
  dict ≠ ∅ →
  ∃ df1 df2,
    save_data dict = Ok (df1, df2) ∧
    length (rows df1) = size dict ∧
    length (rows df2) = size dict ∧
    rows df1 ≡ₚ corrupt_row <$> (map_to_list dict).*2 ∧
    rows df2 ≡ₚ level_row <$> (map_to_list dict).*2 ∧
    sorted_descending_missing_last success_21_20 (rows df1) ∧
    sorted_descending_missing_last leveled_20_20 (rows df2).
Proof.
  intros Hne. apply map_size_non_empty_iff in Hne.
  unfold save_data, from_dict. rewrite decide_True by lia.
  eexists _, _. split; [reflexivity|].
  assert (∀ {A} (f : gems.Gem → A),
            length (f <$> (map_to_list dict).*2) = size dict) as Hlen.
  { intros A f. by rewrite !length_fmap, length_map_to_list. }
  split_and!.
  - rewrite sort_values_rows. apply Hlen.
  - rewrite sort_values_rows. apply Hlen.
  - apply sort_values_rows.
  - apply sort_values_rows.
  - apply sort_values_sorted.
  - apply sort_values_sorted.
Qed.

(** C8 holds for every registry but the empty one, where it fails in the
    code: [from_dict] makes a frame without columns from an empty dict, and
    giving it the eight column labels raises [ValueError].  No report is
    built, where the claim has two reports of zero rows. *)
Theorem C8_empty_registry_raises :
  size (∅ : Registry) = 0 ∧
  columns (from_dict ∅) = [] ∧
  save_data ∅ = Error (ValueError "Length mismatch").
Proof. done. Qed.

(** The same from the feed: an empty feed, aggregated in a fresh process,
    returns the empty registry, on which [save_data] raises. *)
Example save_data_after_empty_feed :
  ∃ dict,
    go_over_elements (api.Build_Response (Some [])) ∅ = Return dict dict ∧
    save_data dict = Error (ValueError "Length mismatch").
Proof. by exists ∅. Qed.

(** The end-to-end scenario of the specification. *)
Example end_to_end_haste :
  let feed :=
    [ api.Build_RawRecord (Some "Haste") (Some "1/20") (Some 5%Q) None;
      api.Build_RawRecord (Some "Haste") (Some "20/20") (Some 20%Q) (Some 3%Z);
      api.Build_RawRecord (Some "Haste") (Some "21/20c") (Some 50%Q) (Some 2%Z) ] in
  ∃ dict df1 df2,
    go_over_elements (api.Build_Response (Some feed)) ∅ = Return dict dict ∧
    save_data dict = Ok (df1, df2) ∧
    rows df1 = [ Build_CorruptRow "Haste" (Some 5%Q) None (Some 50%Q) 2 None ] ∧
    rows df2 = [ Build_LevelRow "Haste" (Some 5%Q) (Some 20%Q) 3 ].
Proof. eexists _, _, _. split_and!; by vm_compute. Qed.


(** * Further properties of the code *)

(** ** How [go_over_elements] ends *)

Lemma first_missing_key_None gem :
  first_missing_key gem = None ↔ well_formed gem.
Proof.
  destruct gem as [[n|] [v|] [p|] l]; unfold well_formed, first_missing_key;
    simpl; split; try done; try (intros (? & ? & ?); by eauto);
    intros ([??] & [??] & [??]); done.
Qed.

Lemma process_gem_raises gem key dictionary :
  first_missing_key gem = Some key →
  process_gem gem dictionary = Raise (KeyError key) dictionary.
Proof.
  destruct gem as [[n|] [v|] [p|] l]; unfold first_missing_key; simpl;
    intros [= <-]; done.
Qed.

(** The loop up to and including the first record that lacks a key. *)
Lemma for_each_bad_record good bad rest key dictionary :
  Forall well_formed good →
  first_missing_key bad = Some key →
  for_each process_gem (good ++ bad :: rest) dictionary =
    Raise (KeyError key) (aggregate good dictionary).
Proof.
  intros Hgood Hbad. revert dictionary.
  induction Hgood as [|gem good Hgem _ IH]; intros dictionary; simpl.
  - unfold mbind, M_bind, bind. by rewrite (process_gem_raises bad key).
  - apply well_formed_inv in Hgem as (n & v & p & l & ->).
    unfold mbind, M_bind, bind. rewrite aggregate_cons.
    rewrite process_gem_well_formed. apply IH.
Qed.

(** A feed is well formed throughout, or it has a first record that lacks a
    required key. *)
Lemma feed_split feed :
  Forall well_formed feed ∨
  ∃ good bad rest key,
    feed = good ++ bad :: rest ∧ Forall well_formed good ∧
    first_missing_key bad = Some key.
Proof.
  induction feed as [|gem feed IH]; [by left|].
  destruct (first_missing_key gem) as [key|] eqn:Hgem.
  - right. by exists [], gem, feed, key.
  - apply first_missing_key_None in Hgem.
    destruct IH as [Hwf|(good & bad & rest & key & -> & Hgood & Hbad)].
    + left. by constructor.
    + right. exists (gem :: good), bad, rest, key. split_and!; [done| |done].
      by constructor.
Qed.

(** X1. When a record of the feed lacks "name", "variant" or "chaosValue",
    [go_over_elements] raises [KeyError] for the first of these keys that the
    first such record lacks.  The records before it have been aggregated into
    the registry and stay there; that record and all records after it leave
    no trace. *)
Theorem X1_go_over_elements_stops_at_first_bad_record
    (good rest : list api.RawRecord) (bad : api.RawRecord) (key : string)
    (dictionary : Registry) :
  Forall well_formed good →
  first_missing_key bad = Some key →
  go_over_elements (api.Build_Response (Some (good ++ bad :: rest))) dictionary =
    Raise (KeyError key) (aggregate good dictionary).
Proof.
  intros Hgood Hbad.
  unfold go_over_elements, mbind, M_bind, bind, getitem. simpl.
  by rewrite (for_each_bad_record good bad rest key).
Qed.

(** The statement applies to a feed whose second record has no variant. *)
Lemma X1_go_over_elements_stops_at_first_bad_record_witness :
  let first := api.Build_RawRecord (Some "Haste") (Some "1/20") (Some 5%Q) None in
  let second := api.Build_RawRecord (Some "Clarity") None None None in
  let third := api.Build_RawRecord (Some "Wrath") (Some "1/20") (Some 7%Q) None in
  Forall well_formed [first] ∧
  first_missing_key second = Some "variant" ∧
  go_over_elements (api.Build_Response (Some ([first] ++ second :: [third]))) ∅ =
    Raise (KeyError "variant") (aggregate [first] ∅).
Proof.
  intros first second third.
  assert (Forall well_formed [first]) as Hwf by (repeat constructor; simpl; eauto).
  split_and!; [exact Hwf | reflexivity |].
  exact (X1_go_over_elements_stops_at_first_bad_record [first] [third] second
           "variant" ∅ Hwf eq_refl).
Defined.

Lemma go_over_elements_returns (data : api.Response)
    (dictionary : Registry) :
  (∃ gems_dict dictionary',
     go_over_elements data dictionary = Return gems_dict dictionary') ↔
  (∃ feed, api.lines data = Some feed ∧ Forall well_formed feed).
Proof.
  destruct data as [[feed|]]; simpl.
  - split.
    + intros (m & d' & Hret). exists feed. split; [done|].
      destruct (feed_split feed)
        as [Hwf|(good & bad & rest & key & -> & Hgood & Hbad)]; [done|].
      unfold go_over_elements, mbind, M_bind, bind, getitem in Hret.
      simpl in Hret.
      by rewrite (for_each_bad_record good bad rest key) in Hret.
    + intros (feed' & [= <-] & Hwf).
      rewrite go_over_elements_well_formed by done. eauto.
  - split; [by intros (? & ? & ?) | by intros (? & ? & ?)].
Qed.

(** X2. [go_over_elements] returns normally exactly when the response has
    "lines" and every record has its three required keys; it then returns
    the registry it leaves behind.  Otherwise it raises. *)
Theorem X2_go_over_elements_returns_iff_well_formed (data : api.Response)
    (dictionary : Registry) :
  (∃ gems_dict dictionary',
     go_over_elements data dictionary = Return gems_dict dictionary') ↔
  (∃ feed, api.lines data = Some feed ∧ Forall well_formed feed).
Proof. apply go_over_elements_returns. Qed.

(** ** What a call never undoes *)

(** Take the cascade of [update_prices] apart, branch by branch. *)
Ltac cascade :=
  unfold update_prices; cbv zeta;
  repeat match goal with
         | |- context [if ?b then _ else _] => destruct b
         end.

Lemma update_prices_name variant price quality listed obj :
  gems.name (update_prices variant price quality listed obj) = gems.name obj.
Proof. by cascade. Qed.

Lemma update_prices_price_kept variant price quality listed obj field :
  is_Some (price_of field obj) →
  is_Some (price_of field (update_prices variant price quality listed obj)).
Proof. cascade; destruct field; simpl; eauto. Qed.

Lemma create_gem_object_insert gem_name variant price quality listed
    (dictionary : Registry) :
  create_gem_object gem_name variant price quality listed dictionary =
  Return tt
    (<[gem_name := update_prices variant price quality listed
                     (default (gems.new gem_name) (dictionary !! gem_name))]>
       dictionary).
Proof.
  unfold create_gem_object.
  destruct (dictionary !! gem_name) as [obj|] eqn:Hobj; simpl.
  - by rewrite Hobj.
  - by rewrite lookup_insert_eq, insert_insert_eq.
Qed.

(** X4. [create_gem_object] never raises, whatever strings and numbers it is
    given (the quality need not be one of the four the classifier returns).
    It changes the registry at the one key [gem_name]: that key is
    registered afterwards, every other entry is as before and no key is
    removed.  An object that was registered keeps its name, and a price it
    held is still present afterwards (overwritten perhaps, never cleared). *)
Theorem X4_create_gem_object_frame (gem_name variant : string) (price : Q)
    (quality : string) (listed : Z) (dictionary : Registry) :
  ∃ dictionary' : Registry,
    create_gem_object gem_name variant price quality listed dictionary =
      Return tt dictionary' ∧
    is_Some (dictionary' !! gem_name) ∧
    (∀ key, key ≠ gem_name → dictionary' !! key = dictionary !! key) ∧
    dom dictionary' = {[ gem_name ]} ∪ dom dictionary ∧
    (∀ obj, dictionary !! gem_name = Some obj →
       ∃ obj', dictionary' !! gem_name = Some obj' ∧
               gems.name obj' = gems.name obj ∧
               ∀ field, is_Some (price_of field obj) →
                        is_Some (price_of field obj')).
Proof.
  eexists. split; [apply create_gem_object_insert|]. split_and!.
  - rewrite lookup_insert_eq. eauto.
  - intros key Hkey. by rewrite lookup_insert_ne.
  - apply dom_insert_L.
  - intros obj Hobj. eexists. rewrite lookup_insert_eq, Hobj. simpl.
    split_and!; [done|apply update_prices_name|].
    intros field. apply update_prices_price_kept.
Qed.

(** The registry [go_over_elements] leaves behind, however it ends. *)
Lemma final_registry_go_over_elements data dictionary :
  final_registry (go_over_elements data dictionary) =
    match api.lines data with
    | Some feed => aggregate feed dictionary
    | None => dictionary
    end.
Proof.
  destruct data as [[feed|]]; [|done].
  unfold go_over_elements, aggregate, mbind, M_bind, bind, getitem. simpl.
  by destruct (for_each process_gem feed dictionary).
Qed.

(** One step of the loop, for any record: the registry is as it was or has
    the record's entry replaced. *)
Lemma aggregate_cons_cases gem feed (dictionary : Registry) :
  aggregate (gem :: feed) dictionary = dictionary ∨
  ∃ name variant price listed,
    aggregate (gem :: feed) dictionary =
    aggregate feed
      (<[aggregation_key name :=
           update_prices variant price (gem_quality_type name) listed
             (default (gems.new (aggregation_key name))
                      (dictionary !! aggregation_key name))]> dictionary).
Proof.
  rewrite aggregate_cons.
  destruct (first_missing_key gem) as [key|] eqn:Hgem.
  - left. by rewrite (process_gem_raises gem key).
  - right. apply first_missing_key_None, well_formed_inv in Hgem
      as (n & v & p & l & ->).
    rewrite process_gem_well_formed. eauto.
Qed.

Lemma aggregate_name_is_key feed (dictionary : Registry) :
  name_is_key dictionary → name_is_key (aggregate feed dictionary).
Proof.
  revert dictionary. induction feed as [|gem feed IH]; intros dictionary Hinv;
    [done|].
  destruct (aggregate_cons_cases gem feed dictionary)
    as [->|(n & v & p & l & ->)]; [done|].
  apply IH. apply map_Forall_insert_2; [|done].
  rewrite update_prices_name.
  destruct (dictionary !! aggregation_key n) as [obj|] eqn:Hobj; [|done].
  by apply (Hinv _ _ Hobj).
Qed.

(** X3. The registry keeps every object under the object's own name: when
    this holds before a call of [go_over_elements] it holds after it, whether
    the call returns or raises, for every response.  In particular it holds
    for everything aggregated in a process that started with the empty
    registry. *)
Theorem X3_objects_registered_under_their_name (data : api.Response)
    (dictionary : Registry) :
  name_is_key dictionary →
  name_is_key (final_registry (go_over_elements data dictionary)).
Proof.
  intros Hinv. rewrite final_registry_go_over_elements.
  destruct (api.lines data); [by apply aggregate_name_is_key | done].
Qed.

(** The statement applies to the first call of a process. *)
Lemma X3_objects_registered_under_their_name_witness :
  let feed :=
    [ api.Build_RawRecord (Some "Vaal Haste") (Some "20/20c") (Some 3%Q) None;
      api.Build_RawRecord (Some "Haste") (Some "1/20") (Some 5%Q) None ] in
  name_is_key ∅ ∧
  name_is_key (final_registry (go_over_elements (api.Build_Response (Some feed)) ∅)).
Proof.
  intros feed.
  assert (name_is_key ∅) as Hinv by apply map_Forall_empty.
  split; [exact Hinv|].
  exact (X3_objects_registered_under_their_name
           (api.Build_Response (Some feed)) ∅ Hinv).
Defined.

Lemma aggregate_entry_kept feed (dictionary : Registry) key obj :
  dictionary !! key = Some obj →
  ∃ obj', aggregate feed dictionary !! key = Some obj' ∧
          gems.name obj' = gems.name obj ∧
          ∀ field, is_Some (price_of field obj) → is_Some (price_of field obj').
Proof.
  revert dictionary obj.
  induction feed as [|gem feed IH]; intros dictionary obj Hobj; [by eauto|].
  destruct (aggregate_cons_cases gem feed dictionary)
    as [->|(n & v & p & l & ->)]; [by eauto|].
  destruct (decide (aggregation_key n = key)) as [Hk|Hk].
  - edestruct (IH (<[aggregation_key n :=
                      update_prices v p (gem_quality_type n) l
                        (default (gems.new (aggregation_key n))
                                 (dictionary !! aggregation_key n))]> dictionary))
      as (obj' & Hobj' & Hname & Hprices).
    { rewrite Hk. apply lookup_insert_eq. }
    exists obj'. split; [done|]. rewrite Hk, Hobj in *. simpl in *.
    split.
    + by rewrite Hname, update_prices_name.
    + intros field Hfield. by apply Hprices, update_prices_price_kept.
  - apply IH. by rewrite lookup_insert_ne.
Qed.

(** X5. Nothing is ever taken out of the registry.  After a call of
    [go_over_elements], returning or raising, every object that was
    registered is still registered under its key, with its name, and every
    price it held is still present (a later record may have overwritten the
    value; none resets it to absent). *)
Theorem X5_registry_only_grows (data : api.Response) (dictionary : Registry)
    (key : string) (obj : gems.Gem) :
  dictionary !! key = Some obj →
  ∃ obj',
    final_registry (go_over_elements data dictionary) !! key = Some obj' ∧
    gems.name obj' = gems.name obj ∧
    ∀ field, is_Some (price_of field obj) → is_Some (price_of field obj').
Proof.
  intros Hobj. rewrite final_registry_go_over_elements.
  destruct (api.lines data); [by apply aggregate_entry_kept | by eauto].
Qed.

(** The statement applies to a registry that holds a base price for "Haste"
    and a feed that names "Haste" again. *)
Lemma X5_registry_only_grows_witness :
  let before := gems.set_base_price 5%Q (gems.new "Haste") in
  let feed :=
    [ api.Build_RawRecord (Some "Haste") (Some "20/20") (Some 20%Q) (Some 3%Z) ] in
  ({[ "Haste" := before ]} : Registry) !! "Haste" = Some before ∧
  ∃ obj',
    final_registry
      (go_over_elements (api.Build_Response (Some feed)) {[ "Haste" := before ]})
      !! "Haste" = Some obj' ∧
    gems.name obj' = gems.name before ∧
    ∀ field, is_Some (price_of field before) → is_Some (price_of field obj').
Proof.
  intros before feed.
  assert (({[ "Haste" := before ]} : Registry) !! "Haste" = Some before) as Hobj
    by reflexivity.
  split; [exact Hobj|].
  exact (X5_registry_only_grows (api.Build_Response (Some feed))
           {[ "Haste" := before ]} "Haste" before Hobj).
Defined.

(** ** Which names share a key *)

Lemma str_app_assoc (s1 s2 s3 : string) : (s1 +:+ s2) +:+ s3 = s1 +:+ s2 +:+ s3.
Proof. induction s1 as [|c s1 IH]; [done|]. by rewrite !app_String, IH. Qed.

Lemma occurs_in_cons sub c s : occurs_in sub s → occurs_in sub (String c s).
Proof. intros (before & after & ->). by exists (String c before), after. Qed.

(** A string in which a marker followed by more text occurs has the marker. *)
Lemma occurs_in_shorter sub more s :
  occurs_in (sub +:+ more) s → occurs_in sub s.
Proof.
  intros (before & after & ->). exists before, (more +:+ after).
  by rewrite str_app_assoc.
Qed.

(** [replace] leaves a string without an occurrence as it is. *)
Lemma str_replace_absent old new s :
  ¬ occurs_in old s → str_replace old new s = s.
Proof.
  unfold str_replace. induction s as [|c s IH]; intros Habsent; [done|].
  rewrite str_replace_from_unfold.
  destruct (String.prefix old (String c s)) eqn:Hp.
  - destruct Habsent. apply prefix_iff in Hp as [after Hp].
    exists EmptyString, after. by rewrite Hp.
  - rewrite IH; [done|]. intros Hin. by apply Habsent, occurs_in_cons.
Qed.

Lemma str_replace_vaal_front s :
  str_replace "Vaal " EmptyString ("Vaal " +:+ s) =
  str_replace "Vaal " EmptyString s.
Proof. unfold str_replace. rewrite !app_String. simpl. by destruct s. Qed.

Lemma aggregation_key_without_marker name :
  ¬ occurs_in "Vaal " name → aggregation_key name = name.
Proof.
  intros Habsent. unfold aggregation_key.
  destruct (String.eqb _ _); [by apply str_replace_absent | done].
Qed.

Lemma vaal_version_key x :
  ¬ occurs_in "Vaal" x →
  gem_quality_type ("Vaal " +:+ x) = "Vaal" ∧
  aggregation_key ("Vaal " +:+ x) = x ∧
  aggregation_key x = x.
Proof.
  intros Hplain.
  assert (¬ occurs_in "Vaal " x) as Hplain'.
  { intros Hin. by apply Hplain, (occurs_in_shorter "Vaal" " "). }
  assert (gem_quality_type ("Vaal " +:+ x) = "Vaal") as Hvaal.
  { destruct (gem_quality_type_cases ("Vaal " +:+ x))
      as [[_ ?]|[[Habs _]|[[Habs _]|[Habs _]]]]; [done|..];
      destruct Habs; by exists EmptyString, (" " +:+ x). }
  split_and!; [done| |by apply aggregation_key_without_marker].
  unfold aggregation_key. rewrite Hvaal. simpl.
  rewrite str_replace_vaal_front. by apply str_replace_absent.
Qed.

(** X6. A gem and its Vaal version meet under one key: for every name [x]
    without "Vaal", the record named "Vaal x" is classified Vaal and
    aggregated under the key [x], the key of the record named [x] itself. *)
Theorem X6_vaal_version_shares_key (x : string) :
  ¬ occurs_in "Vaal" x →
  gem_quality_type ("Vaal " +:+ x) = "Vaal" ∧
  aggregation_key ("Vaal " +:+ x) = x ∧
  aggregation_key x = x.
Proof. apply vaal_version_key. Qed.

(** The statement applies to "Haste". *)
Lemma X6_vaal_version_shares_key_witness :
  ¬ occurs_in "Vaal" "Haste" ∧
  gem_quality_type ("Vaal " +:+ "Haste") = "Vaal" ∧
  aggregation_key ("Vaal " +:+ "Haste") = "Haste" ∧
  aggregation_key "Haste" = "Haste".
Proof.
  assert (¬ occurs_in "Vaal" "Haste") as Hplain by (by apply str_in_absent).
  split; [exact Hplain|].
  exact (X6_vaal_version_shares_key "Haste" Hplain).
Defined.

(** X7. Only the text "Vaal " (with the blank) is taken out of a name.  A
    name without it is aggregated under the name itself, whatever its
    category: in particular a name that contains "Vaal" not followed by a
    blank is classified Vaal and still keyed by its full name. *)
Theorem X7_key_is_name_without_vaal_blank (name : string) :
  ¬ occurs_in "Vaal " name →
  aggregation_key name = name ∧
  (occurs_in "Vaal" name → gem_quality_type name = "Vaal") ∧
  ∀ variant price listingCount (dictionary : Registry),
    is_Some
      (final_registry
         (process_gem
            (api.Build_RawRecord (Some name) (Some variant) (Some price)
               listingCount) dictionary) !! name).
Proof.
  intros Habsent.
  pose proof (aggregation_key_without_marker name Habsent) as Hkey.
  split_and!; [done| |].
  - intros Hvaal.
    destruct (gem_quality_type_cases name)
      as [[_ ?]|[[? _]|[[? _]|[? _]]]]; done.
  - intros variant price listingCount dictionary.
    rewrite process_gem_well_formed, Hkey. simpl.
    rewrite lookup_insert_eq. eauto.
Qed.

(** The statement applies to "Vaalbara Shard", which is classified Vaal. *)
Lemma X7_key_is_name_without_vaal_blank_witness :
  ¬ occurs_in "Vaal " "Vaalbara Shard" ∧
  aggregation_key "Vaalbara Shard" = "Vaalbara Shard" ∧
  (occurs_in "Vaal" "Vaalbara Shard" → gem_quality_type "Vaalbara Shard" = "Vaal").
Proof.
  assert (¬ occurs_in "Vaal " "Vaalbara Shard") as Habsent
    by (by apply str_in_absent).
  split; [exact Habsent|].
  pose proof (X7_key_is_name_without_vaal_blank "Vaalbara Shard" Habsent)
    as (Hkey & Hvaal & _).
  exact (conj Hkey Hvaal).
Defined.

(** ** Records of Vaal gems *)

Lemma selected_field_leveled category :
  selected_field "20/20" category = Some leveledPrice.
Proof. by destruct category. Qed.

(** X8. A record whose name contains "Vaal" writes the leveled price and
    listing count when its variant is "20/20", the vaal price when its
    variant is "20/20c", and nothing for any other variant: it never sets a
    base, fail or success price.  Conversely [create_gem_object]'s cascade
    changes the vaal price of an object only for variant "20/20c" with
    quality "Vaal". *)
Theorem X8_what_a_vaal_record_writes (name variant : string) (price : Q)
    (listingCount : option Z) (dictionary : Registry) :
  occurs_in "Vaal" name →
  let key := aggregation_key name in
  let obj := default (gems.new key) (dictionary !! key) in
  let listed := default 0%Z listingCount in
  process_gem
    (api.Build_RawRecord (Some name) (Some variant) (Some price) listingCount)
    dictionary =
  Return tt
    (<[key :=
         if decide (variant = "20/20")
         then gems.set_listed_leveled listed (gems.set_leveled_price price obj)
         else if decide (variant = "20/20c") then gems.set_vaal_price price obj
         else obj]> dictionary) ∧
  ∀ variant' price' quality' listed' obj',
    gems.vaal_price (update_prices variant' price' quality' listed' obj') ≠
      gems.vaal_price obj' →
    variant' = "20/20c" ∧ quality' = "Vaal".
Proof.
  intros Hvaal key obj listed. split.
  - rewrite process_gem_well_formed. fold key. fold obj. fold listed.
    do 2 f_equal.
    assert (gem_quality_type name = "Vaal") as ->.
    { destruct (gem_quality_type_cases name)
        as [[_ ?]|[[? _]|[[? _]|[? _]]]]; done. }
    destruct (decide (variant = "20/20")) as [->|H1]; [done|].
    destruct (decide (variant = "20/20c")) as [->|H2]; [done|].
    apply String.eqb_neq in H1, H2.
    unfold update_prices. rewrite H1, H2. simpl.
    by rewrite !andb_false_r.
  - intros v p q l o. unfold update_prices. cbv zeta.
    repeat match goal with
           | |- context [if ?b then _ else _] => destruct b eqn:?
           end; try done.
    intros _.
    match goal with
    | H : (String.eqb v "20/20c" && String.eqb q "Vaal") = true |- _ =>
        apply andb_true_iff in H as [?%String.eqb_eq ?%String.eqb_eq]
    end.
    done.
Qed.

(** The statement applies to the record ("Vaal Haste", "21/20c"), which
    writes nothing. *)
Lemma X8_what_a_vaal_record_writes_witness :
  occurs_in "Vaal" "Vaal Haste" ∧
  process_gem
    (api.Build_RawRecord (Some "Vaal Haste") (Some "21/20c") (Some 9%Q) None) ∅ =
  Return tt (<["Haste" := gems.new "Haste"]> ∅).
Proof.
  assert (occurs_in "Vaal" "Vaal Haste") as Hvaal by (by apply str_in_occurs).
  split; [exact Hvaal|].
  exact (proj1 (X8_what_a_vaal_record_writes "Vaal Haste" "21/20c" 9%Q None ∅
                  Hvaal)).
Defined.

(** X9. The leveled price of a gem and of its Vaal version are one field.
    For a name [x] without "Vaal", the "20/20" records named [x] and
    "Vaal x" both write the leveled price and listing count of the GemRecord
    [x]; whichever comes later in the feed decides what the field holds. *)
Theorem X9_leveled_price_shared_with_vaal_version (x : string) (p1 p2 : Q)
    (l1 l2 : option Z) (dictionary : Registry) :
  ¬ occurs_in "Vaal" x →
  let plain := api.Build_RawRecord (Some x) (Some "20/20") (Some p1) l1 in
  let vaal :=
    api.Build_RawRecord (Some ("Vaal " +:+ x)) (Some "20/20") (Some p2) l2 in
  field_contents leveledPrice <$> aggregate [plain; vaal] dictionary !! x =
    Some (Some p2, Some (default 0%Z l2)) ∧
  field_contents leveledPrice <$> aggregate [vaal; plain] dictionary !! x =
    Some (Some p1, Some (default 0%Z l1)).
Proof.
  intros Hplain plain vaal.
  destruct (vaal_version_key x Hplain) as (_ & Hkv & Hkx).
  unfold plain, vaal.
  split;
    rewrite aggregate_cons, process_gem_well_formed,
      aggregate_cons, process_gem_well_formed, aggregate_nil;
    rewrite !process_gem_contents, !selected_field_leveled, Hkv, Hkx;
    by rewrite !decide_True by done.
Qed.

(** The statement applies to "Haste". *)
Lemma X9_leveled_price_shared_with_vaal_version_witness :
  let plain := api.Build_RawRecord (Some "Haste") (Some "20/20") (Some 20%Q) None in
  let vaal :=
    api.Build_RawRecord (Some ("Vaal " +:+ "Haste")) (Some "20/20") (Some 35%Q)
      (Some 4%Z) in
  ¬ occurs_in "Vaal" "Haste" ∧
  field_contents leveledPrice <$> aggregate [plain; vaal] ∅ !! "Haste" =
    Some (Some 35%Q, Some 4%Z).
Proof.
  intros plain vaal.
  assert (¬ occurs_in "Vaal" "Haste") as Hplain by (by apply str_in_absent).
  split; [exact Hplain|].
  exact (proj1 (X9_leveled_price_shared_with_vaal_version "Haste" 20%Q 35%Q None
                  (Some 4%Z) ∅ Hplain)).
Defined.

(** ** What a whole feed leaves in the registry *)

Lemma gem_ext (g g' : gems.Gem) :
  gems.name g = gems.name g' →
  (∀ field, field_contents field g = field_contents field g') →
  g = g'.
Proof.
  intros Hname Hfields.
  pose proof (Hfields basePrice). pose proof (Hfields leveledPrice).
  pose proof (Hfields failPrice). pose proof (Hfields vaalPrice).
  pose proof (Hfields successPrice).
  destruct g, g'. simpl in *. congruence.
Qed.

Lemma record_written_well_formed name variant price listingCount field :
  record_written
    (api.Build_RawRecord (Some name) (Some variant) (Some price) listingCount) field =
  Some (written field price (default 0%Z listingCount)).
Proof. unfold record_written, listing_count. simpl. by destruct listingCount. Qed.

Lemma record_target_well_formed name variant price listingCount key field :
  record_target
    (api.Build_RawRecord (Some name) (Some variant) (Some price) listingCount) =
    Some (key, field) ↔
  aggregation_key name = key ∧ selected_field variant (classify name) = Some field.
Proof.
  unfold record_target. simpl.
  destruct (selected_field variant (classify name)) as [field'|]; simpl.
  - split; [by intros [= <- <-] | by intros [<- [= <-]]].
  - split; [done | by intros [_ ?]].
Qed.

(** The contents of a field group after a feed of well-formed records, in
    closed form. *)
Lemma aggregate_contents feed key field (dictionary : Registry) :
  Forall well_formed feed →
  field_contents field <$> aggregate feed dictionary !! key =
    match last_written feed key field with
    | Some contents => Some contents
    | None =>
        if decide (key ∈ feed_keys feed)
        then Some (default (field_contents field (gems.new key))
                           (field_contents field <$> dictionary !! key))
        else field_contents field <$> dictionary !! key
    end.
Proof.
  intros Hwf. revert dictionary.
  induction Hwf as [|gem feed Hgem _ IH]; intros dictionary.
  { rewrite aggregate_nil, feed_keys_nil. simpl. by rewrite decide_False. }
  apply well_formed_inv in Hgem as (n & v & p & l & ->).
  rewrite aggregate_cons, process_gem_well_formed, IH. simpl.
  destruct (last_written feed key field) as [contents|]; [done|].
  rewrite process_gem_contents, feed_keys_cons. simpl.
  rewrite record_written_well_formed.
  pose proof (record_target_well_formed n v p l key field) as Htarget.
  repeat case_decide; simpl; try done;
    rewrite ?elem_of_union, ?elem_of_singleton in *;
    solve [ intuition congruence
          | destruct (dictionary !! key); intuition congruence ].
Qed.

(** The name of the object under a key of the feed. *)
Lemma aggregate_name feed key (dictionary : Registry) :
  Forall well_formed feed →
  key ∈ feed_keys feed →
  gems.name <$> aggregate feed dictionary !! key =
    Some (gems.name (default (gems.new key) (dictionary !! key))).
Proof.
  intros Hwf. revert dictionary.
  induction Hwf as [|gem feed Hgem Hwf IH]; intros dictionary Hkey.
  { by rewrite feed_keys_nil in Hkey. }
  apply well_formed_inv in Hgem as (n & v & p & l & ->).
  rewrite aggregate_cons, process_gem_well_formed.
  rewrite feed_keys_cons in Hkey. simpl in Hkey.
  destruct (decide (aggregation_key n = key)) as [Hk|Hk].
  - destruct (decide (key ∈ feed_keys feed)) as [Hin|Hout].
    + rewrite IH by done. rewrite Hk, lookup_insert_eq. simpl.
      by rewrite update_prices_name.
    + rewrite aggregate_lookup_other by done.
      rewrite Hk, lookup_insert_eq. simpl. by rewrite update_prices_name.
  - apply elem_of_union in Hkey as [Hkey%elem_of_singleton|Hkey]; [done|].
    rewrite IH by done. by rewrite lookup_insert_ne.
Qed.

(** Two feeds of well-formed records with the same keys and, for every field
    group, the same last write leave the same registry. *)
Lemma aggregate_determined feed1 feed2 (dictionary : Registry) :
  Forall well_formed feed1 →
  Forall well_formed feed2 →
  feed_keys feed1 = feed_keys feed2 →
  (∀ key field, last_written feed1 key field = last_written feed2 key field) →
  aggregate feed1 dictionary = aggregate feed2 dictionary.
Proof.
  intros Hwf1 Hwf2 Hkeys Hlast. apply map_eq. intros key.
  destruct (decide (key ∈ feed_keys feed1)) as [Hin|Hout].
  - pose proof (aggregate_name feed1 key dictionary Hwf1 Hin) as Hn1.
    rewrite Hkeys in Hin.
    pose proof (aggregate_name feed2 key dictionary Hwf2 Hin) as Hn2.
    destruct (aggregate feed1 dictionary !! key) as [g1|] eqn:H1; [|done].
    destruct (aggregate feed2 dictionary !! key) as [g2|] eqn:H2; [|done].
    f_equal. apply gem_ext; [simpl in *; congruence|].
    intros field.
    pose proof (aggregate_contents feed1 key field dictionary Hwf1) as Hc1.
    pose proof (aggregate_contents feed2 key field dictionary Hwf2) as Hc2.
    rewrite H1, Hlast, Hkeys in Hc1. rewrite H2 in Hc2.
    simpl in *. congruence.
  - rewrite aggregate_lookup_other by done.
    rewrite Hkeys in Hout. by rewrite aggregate_lookup_other.
Qed.

(** X10. The registry after a feed of well-formed records, in full.  Its
    keys are those it had and those of the feed.  Each field group of each
    GemRecord holds what the last record of the feed that targets it wrote;
    a group no record targets holds what it held before the feed, or the
    constructor's value when the feed created the GemRecord.  Entries under
    keys the feed does not name are untouched. *)
Theorem X10_registry_after_a_feed (feed : list api.RawRecord)
    (dictionary : Registry) :
  Forall well_formed feed →
  dom (aggregate feed dictionary) = dom dictionary ∪ feed_keys feed ∧
  (∀ key, key ∉ feed_keys feed →
          aggregate feed dictionary !! key = dictionary !! key) ∧
  (∀ key field,
     key ∈ feed_keys feed →
     field_contents field <$> aggregate feed dictionary !! key =
       Some (match last_written feed key field with
             | Some contents => contents
             | None =>
                 field_contents field
                   (default (gems.new key) (dictionary !! key))
             end)).
Proof.
  intros Hwf. split_and!.
  - by apply dom_aggregate.
  - intros key Hkey. by apply aggregate_lookup_other.
  - intros key field Hkey. rewrite aggregate_contents by done.
    destruct (last_written feed key field); [done|].
    rewrite decide_True by done. by destruct (dictionary !! key).
Qed.

(** The statement applies to a feed with two base prices for "Haste". *)
Lemma X10_registry_after_a_feed_witness :
  let feed :=
    [ api.Build_RawRecord (Some "Haste") (Some "1/20") (Some 5%Q) None;
      api.Build_RawRecord (Some "Haste") (Some "1/20") (Some 6%Q) None ] in
  Forall well_formed feed ∧
  dom (aggregate feed ∅) = dom (∅ : Registry) ∪ feed_keys feed.
Proof.
  intros feed.
  assert (Forall well_formed feed) as Hwf by (repeat constructor; simpl; eauto).
  split; [exact Hwf|].
  exact (proj1 (X10_registry_after_a_feed feed ∅ Hwf)).
Defined.

(** X11. Aggregating a feed of well-formed records a second time changes
    nothing: the registry after the second run is the registry after the
    first. *)
Theorem X11_second_run_changes_nothing (feed : list api.RawRecord)
    (dictionary : Registry) :
  Forall well_formed feed →
  aggregate feed (aggregate feed dictionary) = aggregate feed dictionary.
Proof.
  intros Hwf. apply map_eq. intros key.
  destruct (decide (key ∈ feed_keys feed)) as [Hin|Hout];
    [|by rewrite aggregate_lookup_other].
  pose proof (aggregate_name feed key dictionary Hwf Hin) as Hn1.
  pose proof (aggregate_name feed key (aggregate feed dictionary) Hwf Hin) as Hn2.
  destruct (aggregate feed dictionary !! key) as [g1|] eqn:H1; [|done].
  destruct (aggregate feed (aggregate feed dictionary) !! key) as [g2|] eqn:H2;
    [|done].
  f_equal. apply gem_ext; [simpl in *; congruence|].
  intros field.
  pose proof (aggregate_contents feed key field dictionary Hwf) as Hc1.
  pose proof (aggregate_contents feed key field (aggregate feed dictionary) Hwf)
    as Hc2.
  rewrite H1 in Hc1. rewrite H2, H1 in Hc2. simpl in *.
  destruct (last_written feed key field); [congruence|].
  rewrite decide_True in Hc1, Hc2 by done. congruence.
Qed.

(** The statement applies to a feed for "Haste" and its Vaal version. *)
Lemma X11_second_run_changes_nothing_witness :
  let feed :=
    [ api.Build_RawRecord (Some "Vaal Haste") (Some "20/20c") (Some 3%Q) None;
      api.Build_RawRecord (Some "Haste") (Some "1/20") (Some 5%Q) None ] in
  Forall well_formed feed ∧
  aggregate feed (aggregate feed ∅) = aggregate feed ∅.
Proof.
  intros feed.
  assert (Forall well_formed feed) as Hwf by (repeat constructor; simpl; eauto).
  split; [exact Hwf|].
  exact (X11_second_run_changes_nothing feed ∅ Hwf).
Defined.

Lemma feed_keys_app feed1 feed2 :
  feed_keys (feed1 ++ feed2) = feed_keys feed1 ∪ feed_keys feed2.
Proof. unfold feed_keys. by rewrite omap_app, list_to_set_app_L. Qed.

Lemma last_written_app feed1 feed2 key field :
  last_written (feed1 ++ feed2) key field =
    match last_written feed2 key field with
    | Some contents => Some contents
    | None => last_written feed1 key field
    end.
Proof.
  induction feed1 as [|gem feed1 IH]; simpl.
  - by destruct (last_written feed2 key field).
  - rewrite IH. by destruct (last_written feed2 key field).
Qed.

(** X12. The order of two neighbouring records matters only when both write
    the same field group of the same GemRecord.  In a feed of well-formed
    records, two neighbours that do not (they have different keys, or write
    different groups, or one of them is dropped) can be exchanged without
    changing the registry the feed leaves. *)
Theorem X12_records_with_different_targets_commute
    (before after : list api.RawRecord) (r1 r2 : api.RawRecord)
    (dictionary : Registry) :
  Forall well_formed (before ++ r1 :: r2 :: after) →
  (∀ target, record_target r1 = Some target → record_target r2 ≠ Some target) →
  aggregate (before ++ r1 :: r2 :: after) dictionary =
  aggregate (before ++ r2 :: r1 :: after) dictionary.
Proof.
  intros Hwf Hdiff.
  apply Forall_app in Hwf as [Hbefore Hwf].
  apply Forall_cons in Hwf as [Hr1 Hwf].
  apply Forall_cons in Hwf as [Hr2 Hafter].
  apply aggregate_determined.
  - rewrite Forall_app, !Forall_cons. auto.
  - rewrite Forall_app, !Forall_cons. auto.
  - rewrite !feed_keys_app, !feed_keys_cons.
    destruct (record_key r1), (record_key r2); try done.
    f_equal. by rewrite !(assoc_L (∪)), (comm_L (∪) {[ _ ]}).
  - intros key field. rewrite !last_written_app. simpl.
    destruct (last_written after key field); [done|].
    repeat case_decide; try done.
    + by destruct (Hdiff (key, field)).
    + by destruct (record_written r2 field).
    + by destruct (record_written r1 field).
Qed.

(** The statement applies to a base price for "Haste" next to a leveled
    price for "Haste". *)
Lemma X12_records_with_different_targets_commute_witness :
  let r1 := api.Build_RawRecord (Some "Haste") (Some "1/20") (Some 5%Q) None in
  let r2 := api.Build_RawRecord (Some "Haste") (Some "20/20") (Some 20%Q) (Some 3%Z) in
  Forall well_formed ([] ++ r1 :: r2 :: []) ∧
  (∀ target, record_target r1 = Some target → record_target r2 ≠ Some target) ∧
  aggregate ([] ++ r1 :: r2 :: []) ∅ = aggregate ([] ++ r2 :: r1 :: []) ∅.
Proof.
  intros r1 r2.
  assert (Forall well_formed ([] ++ r1 :: r2 :: [])) as Hwf
    by (repeat constructor; simpl; eauto).
  assert (∀ target, record_target r1 = Some target → record_target r2 ≠ Some target)
    as Hdiff by (intros target [= <-]; discriminate).
  split_and!; [exact Hwf | exact Hdiff |].
  exact (X12_records_with_different_targets_commute [] [] r1 r2 ∅ Hwf Hdiff).
Defined.

(** ** Reports and the whole run *)

Lemma registry_names (dict : Registry) :
  name_is_key dict →
  gems.name <$> (map_to_list dict).*2 = (map_to_list dict).*1.
Proof.
  intros Hinv. rewrite <-list_fmap_compose. apply Forall_fmap_ext, Forall_forall.
  intros [key obj] Hin%elem_of_map_to_list. by apply (Hinv key obj).
Qed.

Lemma save_data_ok_iff (dict : Registry) :
  (∃ reports, save_data dict = Ok reports) ↔ dict ≠ ∅.
Proof.
  split.
  - intros [reports Hok] ->. done.
  - intros Hne. destruct (save_data_nonempty dict Hne) as (df1 & df2 & -> & _).
    eauto.
Qed.

(** X13. For every registry that is not empty [save_data] builds both
    reports.  The first has the six columns of [gems_to_corrupt.csv] and the
    second the four of [gems_to_level.csv]; each has exactly one row per
    GemRecord, the rows being the GemRecords' projections in some order; the
    first is sorted by decreasing success price and the second by decreasing
    leveled price, rows without the price last.  No GemRecord is filtered
    out, however few of its fields are set. *)
Theorem X13_reports_of_a_nonempty_registry (dict : Registry) :
  dict ≠ ∅ →
  ∃ df1 df2,
    save_data dict = Ok (df1, df2) ∧
    columns df1 = [ "Gem Name"; "Buy price"; "Corrupted 20/20"; "Success 21/20";
                    "Listed 21/20"; "Vaal price" ] ∧
    columns df2 = [ "Gem Name"; "Buy price"; "Leveled 20/20"; "Listed L20/20" ] ∧
    length (rows df1) = size dict ∧
    length (rows df2) = size dict ∧
    rows df1 ≡ₚ corrupt_row <$> (map_to_list dict).*2 ∧
    rows df2 ≡ₚ level_row <$> (map_to_list dict).*2 ∧
    sorted_descending_missing_last success_21_20 (rows df1) ∧
    sorted_descending_missing_last leveled_20_20 (rows df2).
Proof.
  intros Hne.
  destruct (save_data_nonempty dict Hne)
    as (df1 & df2 & Hok & Hl1 & Hl2 & Hp1 & Hp2 & Hs1 & Hs2).
  exists df1, df2. split_and!; try done.
  - unfold save_data, from_dict in Hok.
    rewrite decide_True in Hok by (by apply Nat.neq_0_lt_0, map_size_non_empty_iff).
    by injection Hok as <- _.
  - unfold save_data, from_dict in Hok.
    rewrite decide_True in Hok by (by apply Nat.neq_0_lt_0, map_size_non_empty_iff).
    by injection Hok as _ <-.
Qed.

(** The statement applies to a registry with one GemRecord. *)
Lemma X13_reports_of_a_nonempty_registry_witness :
  ({[ "Haste" := gems.new "Haste" ]} : Registry) ≠ ∅ ∧
  ∃ df1 df2,
    save_data {[ "Haste" := gems.new "Haste" ]} = Ok (df1, df2) ∧
    length (rows df1) = size ({[ "Haste" := gems.new "Haste" ]} : Registry).
Proof.
  assert (({[ "Haste" := gems.new "Haste" ]} : Registry) ≠ ∅) as Hne
    by apply insert_non_empty.
  split; [exact Hne|].
  destruct (X13_reports_of_a_nonempty_registry _ Hne)
    as (df1 & df2 & Hok & _ & _ & Hlen & _).
  exact (ex_intro _ df1 (ex_intro _ df2 (conj Hok Hlen))).
Defined.

(** X14. When every GemRecord of a non-empty registry is registered under
    its own name, each report row shows the GemRecord registered under the
    name in its "Gem Name" column, and the "Gem Name" column of each report
    lists every key of the registry exactly once. *)
Theorem X14_report_rows_are_the_registered_gems (dict : Registry) :
  name_is_key dict →
  dict ≠ ∅ →
  ∃ df1 df2,
    save_data dict = Ok (df1, df2) ∧
    (∀ row, row ∈ rows df1 →
       ∃ obj, dict !! corrupt_gem_name row = Some obj ∧ row = corrupt_row obj) ∧
    (∀ row, row ∈ rows df2 →
       ∃ obj, dict !! level_gem_name row = Some obj ∧ row = level_row obj) ∧
    NoDup (corrupt_gem_name <$> rows df1) ∧
    NoDup (level_gem_name <$> rows df2) ∧
    (∀ key, key ∈ corrupt_gem_name <$> rows df1 ↔ key ∈ dom dict) ∧
    (∀ key, key ∈ level_gem_name <$> rows df2 ↔ key ∈ dom dict).
Proof.
  intros Hinv Hne.
  destruct (save_data_nonempty dict Hne)
    as (df1 & df2 & Hok & _ & _ & Hp1 & Hp2 & _).
  exists df1, df2. split; [done|].
  assert (corrupt_gem_name <$> rows df1 ≡ₚ (map_to_list dict).*1) as Hn1.
  { rewrite Hp1, <-list_fmap_compose. by rewrite <-registry_names. }
  assert (level_gem_name <$> rows df2 ≡ₚ (map_to_list dict).*1) as Hn2.
  { rewrite Hp2, <-list_fmap_compose. by rewrite <-registry_names. }
  assert (∀ key, key ∈ (map_to_list dict).*1 ↔ key ∈ dom dict) as Hdom.
  { intros key. rewrite elem_of_dom, list_elem_of_fmap. split.
    - intros ([k obj] & -> & Hin%elem_of_map_to_list). eauto.
    - intros [obj Hobj]. exists (key, obj). by rewrite elem_of_map_to_list. }
  split_and!.
  - intros row Hrow. rewrite Hp1 in Hrow.
    apply list_elem_of_fmap in Hrow as (obj & -> & Hobj).
    apply list_elem_of_fmap in Hobj as ([key obj'] & -> & Hin%elem_of_map_to_list).
    exists obj'. simpl. by rewrite (Hinv key obj' Hin).
  - intros row Hrow. rewrite Hp2 in Hrow.
    apply list_elem_of_fmap in Hrow as (obj & -> & Hobj).
    apply list_elem_of_fmap in Hobj as ([key obj'] & -> & Hin%elem_of_map_to_list).
    exists obj'. simpl. by rewrite (Hinv key obj' Hin).
  - rewrite Hn1. apply NoDup_fst_map_to_list.
  - rewrite Hn2. apply NoDup_fst_map_to_list.
  - intros key. by rewrite Hn1.
  - intros key. by rewrite Hn2.
Qed.

(** The statement applies to a registry with one GemRecord. *)
Lemma X14_report_rows_are_the_registered_gems_witness :
  name_is_key {[ "Haste" := gems.new "Haste" ]} ∧
  ({[ "Haste" := gems.new "Haste" ]} : Registry) ≠ ∅ ∧
  ∃ df1 df2,
    save_data {[ "Haste" := gems.new "Haste" ]} = Ok (df1, df2) ∧
    NoDup (corrupt_gem_name <$> rows df1).
Proof.
  assert (name_is_key {[ "Haste" := gems.new "Haste" ]}) as Hinv
    by (by apply map_Forall_singleton).
  assert (({[ "Haste" := gems.new "Haste" ]} : Registry) ≠ ∅) as Hne
    by apply insert_non_empty.
  split_and!; [exact Hinv | exact Hne |].
  destruct (X14_report_rows_are_the_registered_gems _ Hinv Hne)
    as (df1 & df2 & Hok & _ & _ & Hnodup & _).
  exact (ex_intro _ df1 (ex_intro _ df2 (conj Hok Hnodup))).
Defined.

Lemma feed_keys_non_empty feed :
  Forall well_formed feed → feed ≠ [] → feed_keys feed ≠ ∅.
Proof.
  intros Hwf Hne. destruct Hwf as [|gem feed Hgem _]; [done|].
  apply well_formed_inv in Hgem as (n & v & p & l & ->).
  rewrite feed_keys_cons. simpl. intros Hempty.
  assert (aggregation_key n ∈ (∅ : gset string)) as Hin
    by (rewrite <-Hempty; apply elem_of_union_l; by apply elem_of_singleton).
  by apply not_elem_of_empty in Hin.
Qed.

Lemma aggregate_empty_iff feed (dictionary : Registry) :
  Forall well_formed feed →
  aggregate feed dictionary = ∅ ↔ feed = [] ∧ dictionary = ∅.
Proof.
  intros Hwf. split.
  - intros Hempty.
    assert (dom dictionary ∪ feed_keys feed = ∅) as Hdom.
    { rewrite <-dom_aggregate by done. by rewrite Hempty, dom_empty_L. }
    apply empty_union_L in Hdom as [Hd Hf]. split.
    + destruct (decide (feed = [])) as [|Hne]; [done|].
      by destruct (feed_keys_non_empty feed Hwf Hne).
    + by apply dom_empty_iff_L.
  - by intros [-> ->].
Qed.

(** X15. [main] gets as far as writing its reports exactly when the response
    has "lines", every record has its three required keys, and there is
    something to report: the feed has a record or the registry was not
    empty.  With an empty feed in a fresh process [main] ends in the
    [ValueError] of [save_data]. *)
Theorem X15_main_returns_iff (response : api.Response) (dictionary : Registry) :
  ((∃ reports dictionary', main response dictionary = Return reports dictionary') ↔
   (∃ feed, api.lines response = Some feed ∧ Forall well_formed feed ∧
            (feed ≠ [] ∨ dictionary ≠ ∅))) ∧
  main (api.Build_Response (Some [])) ∅ = Raise (ValueError "Length mismatch") ∅.
Proof.
  split; [|done]. unfold main, mbind, M_bind, bind. split.
  - intros (reports & d' & Hret).
    destruct (go_over_elements response dictionary) as [gems_dict d''|] eqn:Hgo;
      [|done].
    destruct (proj1 (go_over_elements_returns response dictionary))
      as (feed & Hlines & Hwf); [by eauto|].
    exists feed. split_and!; [done..|].
    destruct response as [lines]. simpl in Hlines. subst lines.
    rewrite go_over_elements_well_formed in Hgo by done.
    injection Hgo as <- <-.
    unfold call in Hret.
    destruct (save_data (aggregate feed dictionary)) as [r|] eqn:Hsave; [|done].
    assert (aggregate feed dictionary ≠ ∅) as Hne
      by (apply save_data_ok_iff; eauto).
    destruct (decide (feed = [])) as [->|]; [right|by left].
    by rewrite aggregate_nil in Hne.
  - intros (feed & Hlines & Hwf & Hne).
    destruct response as [lines]. simpl in Hlines. subst lines.
    rewrite go_over_elements_well_formed by done.
    assert (aggregate feed dictionary ≠ ∅) as Hne'.
    { rewrite aggregate_empty_iff by done. tauto. }
    apply save_data_ok_iff in Hne' as [reports Hok].
    unfold call. rewrite Hok. eauto.
Qed.

(** X16. A run in a fresh process on a feed of well-formed records that is
    not empty: [main] returns, leaving the aggregated feed in the registry.
    Each report has one row per distinct key of the feed, the "Gem Name"
    column lists these keys without repetition, each row shows the
    GemRecord aggregated under its name, and the reports are sorted by
    decreasing success price and leveled price, rows without the price
    last. *)
Theorem X16_main_on_a_fresh_process (feed : list api.RawRecord) :
  Forall well_formed feed →
  feed ≠ [] →
  ∃ df1 df2,
    main (api.Build_Response (Some feed)) ∅ = Return (df1, df2) (aggregate feed ∅) ∧
    length (rows df1) = size (feed_keys feed) ∧
    length (rows df2) = size (feed_keys feed) ∧
    NoDup (corrupt_gem_name <$> rows df1) ∧
    NoDup (level_gem_name <$> rows df2) ∧
    (∀ key, key ∈ corrupt_gem_name <$> rows df1 ↔ key ∈ feed_keys feed) ∧
    (∀ key, key ∈ level_gem_name <$> rows df2 ↔ key ∈ feed_keys feed) ∧
    (∀ row, row ∈ rows df1 →
       ∃ obj, aggregate feed ∅ !! corrupt_gem_name row = Some obj ∧
              row = corrupt_row obj) ∧
    (∀ row, row ∈ rows df2 →
       ∃ obj, aggregate feed ∅ !! level_gem_name row = Some obj ∧
              row = level_row obj) ∧
    sorted_descending_missing_last success_21_20 (rows df1) ∧
    sorted_descending_missing_last leveled_20_20 (rows df2).
Proof.
  intros Hwf Hne.
  assert (aggregate feed ∅ ≠ ∅) as Hne'.
  { rewrite aggregate_empty_iff by done. tauto. }
  assert (name_is_key (aggregate feed ∅)) as Hinv
    by (apply aggregate_name_is_key, map_Forall_empty).
  assert (dom (aggregate feed ∅) = feed_keys feed) as Hdom.
  { rewrite dom_aggregate by done. by rewrite dom_empty_L, (left_id_L ∅ (∪)). }
  destruct (save_data_nonempty _ Hne')
    as (df1 & df2 & Hok & Hl1 & Hl2 & Hp1 & Hp2 & Hs1 & Hs2).
  assert (∀ key, key ∈ (map_to_list (aggregate feed ∅)).*1 ↔ key ∈ feed_keys feed)
    as Hkeys.
  { intros key. rewrite <-Hdom, elem_of_dom, list_elem_of_fmap. split.
    - intros ([k obj] & -> & Hin%elem_of_map_to_list). eauto.
    - intros [obj Hobj]. exists (key, obj). by rewrite elem_of_map_to_list. }
  assert (corrupt_gem_name <$> rows df1 ≡ₚ (map_to_list (aggregate feed ∅)).*1)
    as Hn1.
  { rewrite Hp1, <-list_fmap_compose. by rewrite <-registry_names. }
  assert (level_gem_name <$> rows df2 ≡ₚ (map_to_list (aggregate feed ∅)).*1)
    as Hn2.
  { rewrite Hp2, <-list_fmap_compose. by rewrite <-registry_names. }
  exists df1, df2. split_and!; try done.
  - unfold main, mbind, M_bind, bind, call.
    rewrite go_over_elements_well_formed by done. by rewrite Hok.
  - by rewrite Hl1, <-Hdom, size_dom.
  - by rewrite Hl2, <-Hdom, size_dom.
  - rewrite Hn1. apply NoDup_fst_map_to_list.
  - rewrite Hn2. apply NoDup_fst_map_to_list.
  - intros key. by rewrite Hn1.
  - intros key. by rewrite Hn2.
  - intros row Hrow. rewrite Hp1 in Hrow.
    apply list_elem_of_fmap in Hrow as (obj & -> & Hobj).
    apply list_elem_of_fmap in Hobj as ([key obj'] & -> & Hin%elem_of_map_to_list).
    exists obj'. simpl. by rewrite (Hinv key obj' Hin).
  - intros row Hrow. rewrite Hp2 in Hrow.
    apply list_elem_of_fmap in Hrow as (obj & -> & Hobj).
    apply list_elem_of_fmap in Hobj as ([key obj'] & -> & Hin%elem_of_map_to_list).
    exists obj'. simpl. by rewrite (Hinv key obj' Hin).
Qed.

(** The statement applies to the feed of "Haste" and its Vaal version. *)
Lemma X16_main_on_a_fresh_process_witness :
  let feed :=
    [ api.Build_RawRecord (Some "Vaal Haste") (Some "20/20c") (Some 3%Q) None;
      api.Build_RawRecord (Some "Haste") (Some "1/20") (Some 5%Q) None ] in
  Forall well_formed feed ∧ feed ≠ [] ∧
  ∃ df1 df2,
    main (api.Build_Response (Some feed)) ∅ = Return (df1, df2) (aggregate feed ∅) ∧
    length (rows df1) = size (feed_keys feed).
Proof.
  intros feed.
  assert (Forall well_formed feed) as Hwf by (repeat constructor; simpl; eauto).
  assert (feed ≠ []) as Hne by discriminate.
  split_and!; [exact Hwf | exact Hne |].
  destruct (X16_main_on_a_fresh_process feed Hwf Hne)
    as (df1 & df2 & Hmain & Hlen & _).
  exact (ex_intro _ df1 (ex_intro _ df2 (conj Hmain Hlen))).
Defined.

(** ** Variants the cascade does not know *)

(** X17. Seven variant strings are all [create_gem_object] ever acts on.  For
    any other variant the cascade writes nothing, whatever the quality
    string, so the call only makes sure the name is registered; a feed
    record with such a variant is dropped for every gem name. *)
Theorem X17_unknown_variants_write_nothing (variant : string) :
  variant ∉ [ "1/20"; "1"; "20/20"; "20/20c"; "5/20c"; "21/20c"; "6/20c" ] →
  (∀ price quality listed obj,
     update_prices variant price quality listed obj = obj) ∧
  (∀ gem_name price quality listed (dictionary : Registry),
     create_gem_object gem_name variant price quality listed dictionary =
     Return tt
       (<[gem_name := default (gems.new gem_name) (dictionary !! gem_name)]>
          dictionary)) ∧
  (∀ name price listingCount (dictionary : Registry),
     process_gem
       (api.Build_RawRecord (Some name) (Some variant) (Some price) listingCount)
       dictionary =
     Return tt
       (<[aggregation_key name :=
            default (gems.new (aggregation_key name))
                    (dictionary !! aggregation_key name)]> dictionary)).
Proof.
  intros Hvariant.
  repeat (apply not_elem_of_cons in Hvariant as [?%String.eqb_neq Hvariant]).
  assert (∀ price quality listed obj,
            update_prices variant price quality listed obj = obj) as Hupdate.
  { intros price quality listed obj. unfold update_prices.
    by repeat match goal with H : String.eqb variant _ = false |- _ =>
                rewrite H; clear H end. }
  split_and!.
  - done.
  - intros. by rewrite create_gem_object_insert, Hupdate.
  - intros. by rewrite process_gem_well_formed, Hupdate.
Qed.

(** The statement applies to the variant "21/23c". *)
Lemma X17_unknown_variants_write_nothing_witness :
  ("21/23c" ∉ [ "1/20"; "1"; "20/20"; "20/20c"; "5/20c"; "21/20c"; "6/20c" ]) ∧
  (∀ price quality listed obj,
     update_prices "21/23c" price quality listed obj = obj).
Proof.
  assert ("21/23c" ∉ [ "1/20"; "1"; "20/20"; "20/20c"; "5/20c"; "21/20c"; "6/20c" ])
    as Hvariant.
  { intros Hin.
    repeat (apply elem_of_cons in Hin; destruct Hin as [Hin|Hin];
            [discriminate Hin|]).
    by apply elem_of_nil in Hin. }
  split; [exact Hvariant|].
  exact (proj1 (X17_unknown_variants_write_nothing "21/23c" Hvariant)).
Defined.
